(** * convert-poems.py: splitting a poetry collection into Markdown files

    A shallow embedding of [src/convert-poems.py] and the properties of
    its segmentation and serialisation that the specification states.

    Conventions of the embedding.
    - A Python [str] is a sequence of Unicode code points: [str := list N].
    - [str.strip()], the regular-expression classes [\s] and [\d] follow
      CPython: [\s] and [strip] use the same white-space table, [\d] is the
      general category Nd (table of Unicode 14.0, the one of CPython 3.11).
    - The document reader and the file system are external collaborators:
      the world holds the paragraphs of the input document when the file
      exists, the set of directories, the files as a map from path to
      content, and the lines printed so far.  Paths are joined as on POSIX.
      The operations on the world succeed; module [Faulty] has the same
      run over operations that can raise.
    - An exception is a value: [Raise e]. *)

From Stdlib Require Import NArith String Ascii List DecimalString Lia.
From stdpp Require Import base list gmap.

Local Open Scope N_scope.

(** ** Strings *)

Abbreviation str := (list N) (only parsing).

(** A literal of the source, one code point per (ASCII) character. *)
Definition ustr (s : string) : str :=
  List.map N_of_ascii (list_ascii_of_string s).

Definition in_ranges (tbl : list (N * N)) (c : N) : bool :=
  List.existsb (fun r => (fst r <=? c) && (c <=? snd r)) tbl.

(** [str.isspace] on one code point; also the class [\s]. *)
Definition space_ranges : list (N * N) :=
  [ (0x9, 0xD); (0x1C, 0x20); (0x85, 0x85); (0xA0, 0xA0); (0x1680, 0x1680);
    (0x2000, 0x200A); (0x2028, 0x2029); (0x202F, 0x202F); (0x205F, 0x205F);
    (0x3000, 0x3000) ].

Definition is_space (c : N) : bool := in_ranges space_ranges c.

(** The class [\d]: decimal digits, general category Nd. *)
Definition decimal_ranges : list (N * N) :=
  [ (0x30, 0x39); (0x660, 0x669); (0x6F0, 0x6F9); (0x7C0, 0x7C9);
    (0x966, 0x96F); (0x9E6, 0x9EF); (0xA66, 0xA6F); (0xAE6, 0xAEF);
    (0xB66, 0xB6F); (0xBE6, 0xBEF); (0xC66, 0xC6F); (0xCE6, 0xCEF);
    (0xD66, 0xD6F); (0xDE6, 0xDEF); (0xE50, 0xE59); (0xED0, 0xED9);
    (0xF20, 0xF29); (0x1040, 0x1049); (0x1090, 0x1099); (0x17E0, 0x17E9);
    (0x1810, 0x1819); (0x1946, 0x194F); (0x19D0, 0x19D9); (0x1A80, 0x1A89);
    (0x1A90, 0x1A99); (0x1B50, 0x1B59); (0x1BB0, 0x1BB9); (0x1C40, 0x1C49);
    (0x1C50, 0x1C59); (0xA620, 0xA629); (0xA8D0, 0xA8D9); (0xA900, 0xA909);
    (0xA9D0, 0xA9D9); (0xA9F0, 0xA9F9); (0xAA50, 0xAA59); (0xABF0, 0xABF9);
    (0xFF10, 0xFF19); (0x104A0, 0x104A9); (0x10D30, 0x10D39);
    (0x11066, 0x1106F); (0x110F0, 0x110F9); (0x11136, 0x1113F);
    (0x111D0, 0x111D9); (0x112F0, 0x112F9); (0x11450, 0x11459);
    (0x114D0, 0x114D9); (0x11650, 0x11659); (0x116C0, 0x116C9);
    (0x11730, 0x11739); (0x118E0, 0x118E9); (0x11950, 0x11959);
    (0x11C50, 0x11C59); (0x11D50, 0x11D59); (0x11DA0, 0x11DA9);
    (0x16A60, 0x16A69); (0x16AC0, 0x16AC9); (0x16B50, 0x16B59);
    (0x1D7CE, 0x1D7FF); (0x1E140, 0x1E149); (0x1E2F0, 0x1E2F9);
    (0x1E950, 0x1E959); (0x1FBF0, 0x1FBF9) ].

Definition is_decimal (c : N) : bool := in_ranges decimal_ranges c.

Definition DOT : N := 0x2E.
Definition DQUOTE : N := 0x22.
Definition SLASH : N := 0x2F.
Definition NEWLINE : N := 0xA.
Definition SPACE : N := 0x20.
Definition UNDERSCORE : N := 0x5F.
Definition ZERO : N := 0x30.

Fixpoint drop_while (f : N -> bool) (s : str) : str :=
  match s with
  | [] => []
  | c :: s' => if f c then drop_while f s' else s
  end.

Fixpoint take_while (f : N -> bool) (s : str) : str :=
  match s with
  | [] => []
  | c :: s' => if f c then c :: take_while f s' else []
  end.

Definition lstrip (s : str) : str := drop_while is_space s.
Definition rstrip (s : str) : str := rev (drop_while is_space (rev s)).

(** [s.strip()] *)
Definition strip (s : str) : str := rstrip (lstrip s).

(** Truth value of a string: [if s], [not s]. *)
Definition truthy (s : str) : bool :=
  match s with [] => false | _ :: _ => true end.

(** [s.replace(' ', '_')] *)
Definition replace_spaces (s : str) : str :=
  List.map (fun c => if c =? SPACE then UNDERSCORE else c) s.

(** [s.zfill(width)]: zeros on the left, after a leading sign. *)
Definition zfill (width : nat) (s : str) : str :=
  let pad := repeat ZERO (width - length s) in
  match s with
  | c :: s' => if (c =? 0x2B) || (c =? 0x2D) then c :: pad ++ s' else pad ++ s
  | [] => pad
  end.

(** [str(n)] for a non-negative integer. *)
Definition str_of_nat (n : nat) : str :=
  ustr (NilZero.string_of_uint (Nat.to_uint n)).

(** ** Regular expressions *)

Inductive regex : Type :=
| Void : regex
| Eps : regex
| Class : (N -> bool) -> regex
| Cat : regex -> regex -> regex
| Alt : regex -> regex -> regex
| Star : regex -> regex.

Definition Plus (r : regex) : regex := Cat r (Star r).
Definition Opt (r : regex) : regex := Alt r Eps.

Fixpoint nullable (r : regex) : bool :=
  match r with
  | Void => false
  | Eps => true
  | Class _ => false
  | Cat r1 r2 => nullable r1 && nullable r2
  | Alt r1 r2 => nullable r1 || nullable r2
  | Star _ => true
  end.

Fixpoint deriv (c : N) (r : regex) : regex :=
  match r with
  | Void => Void
  | Eps => Void
  | Class f => if f c then Eps else Void
  | Cat r1 r2 =>
      if nullable r1 then Alt (Cat (deriv c r1) r2) (deriv c r2)
      else Cat (deriv c r1) r2
  | Alt r1 r2 => Alt (deriv c r1) (deriv c r2)
  | Star r1 => Cat (deriv c r1) (Star r1)
  end.

(** The whole of [s] is a word of [r]. *)
Fixpoint accepts (r : regex) (s : str) : bool :=
  match s with
  | [] => nullable r
  | c :: s' => accepts (deriv c r) s'
  end.

(** [bool(re.match('^' r '$', s))]: [$] holds at the end of the string and
    just before a newline that ends the string. *)
Definition re_match_anchored (r : regex) (s : str) : bool :=
  accepts r s ||
  match rev s with
  | c :: s' => (c =? NEWLINE) && accepts r (rev s')
  | [] => false
  end.

(** [re.search(r'\d+', s)]: the leftmost, longest run of digits;
    [None] when [s] has no digit. *)
Definition re_search_digits (s : str) : option str :=
  match drop_while (fun c => negb (is_decimal c)) s with
  | [] => None
  | t => Some (take_while is_decimal t)
  end.

(** The words of a regular expression, as a relation. *)
Inductive lang : regex -> str -> Prop :=
| lang_eps : lang Eps []
| lang_class f c : f c = true -> lang (Class f) [c]
| lang_cat r1 r2 s1 s2 : lang r1 s1 -> lang r2 s2 -> lang (Cat r1 r2) (s1 ++ s2)
| lang_alt_l r1 r2 s : lang r1 s -> lang (Alt r1 r2) s
| lang_alt_r r1 r2 s : lang r2 s -> lang (Alt r1 r2) s
| lang_star_nil r : lang (Star r) []
| lang_star_cons r s1 s2 :
    lang r s1 -> lang (Star r) s2 -> lang (Star r) (s1 ++ s2).

(** Some class of [r] holds of [c]. *)
Fixpoint alphabet (r : regex) (c : N) : bool :=
  match r with
  | Void | Eps => false
  | Class f => f c
  | Cat r1 r2 | Alt r1 r2 => alphabet r1 c || alphabet r2 c
  | Star r1 => alphabet r1 c
  end.

(** ** Configuration (lines 5-8) *)

Definition INPUT_FILE : str := ustr "Reality-a-colorful-illusion.docx".
Definition OUTPUT_FOLDER : str := ustr "markdown_poems".
Definition AUTHOR_NAME : str := ustr "Urangani T.M".

(** ** sanitize_filename (lines 10-17) *)

(** The class of line 15: less-than, greater-than, colon, double quote,
    slash, backslash, vertical bar, question mark, asterisk. *)
Definition invalid_chars : list N :=
  [0x3C; 0x3E; 0x3A; 0x22; 0x2F; 0x5C; 0x7C; 0x3F; 0x2A].

Definition is_invalid_char (c : N) : bool :=
  List.existsb (N.eqb c) invalid_chars.

(** [re.sub] of that class by the empty string: every occurrence goes. *)
Definition remove_invalid (s : str) : str :=
  List.filter (fun c => negb (is_invalid_char c)) s.

Definition sanitize_filename (title : option str) : str :=
  match title with
  | None => ustr "Untitled"
  | Some t =>
      if negb (truthy t) then ustr "Untitled"
      else
        let safe := remove_invalid t in
        let safe := replace_spaces (strip safe) in
        take 50 safe
  end.

(** ** is_poem_number (lines 19-24) *)

(** [\s*\d+\.?\s*] *)
Definition POEM_NUMBER_RE : regex :=
  Cat (Star (Class is_space))
    (Cat (Plus (Class is_decimal))
       (Cat (Opt (Class (N.eqb DOT))) (Star (Class is_space)))).

Definition is_poem_number (text : str) : bool :=
  re_match_anchored POEM_NUMBER_RE text.


(** ** Exceptions and results *)

Inductive exn : Type :=
| AttributeError       (* [.group()] on the [None] of a failed search *)
| PackageNotFoundError (* [Document(path)] on a path that is not there *).

Inductive result (A : Type) : Type :=
| Ok : A -> result A
| Raise : exn -> result A.
Arguments Ok {A} _.
Arguments Raise {A} _.

#[export] Instance result_ret : MRet result := fun A a => Ok a.
#[export] Instance result_bind : MBind result := fun A B f m =>
  match m with
  | Ok a => f a
  | Raise e => Raise e
  end.

(** ** The records built by the scan (lines 34-37, 51-56) *)

Record poem : Type := mk_poem {
  number : str;
  title : option str;
  lines : list str;
  has_author_sig : bool
}.

Record scan_state : Type := mk_scan {
  poems : list poem;
  front_matter : list str;
  current_poem : option poem;
  first_poem_found : bool
}.

Definition init_scan : scan_state := mk_scan [] [] None false.

(** [if current_poem: poems.append(current_poem)] (lines 46-47, 80-81);
    a dictionary with four keys is true. *)
Definition append_current (cur : option poem) (ps : list poem) : list poem :=
  match cur with
  | Some p => ps ++ [p]
  | None => ps
  end.

Definition new_poem (num : str) : poem := mk_poem num None [] false.

(** The body of the loop over the paragraphs (lines 42-77);
    [para] is [para.text]. *)
Definition scan_paragraph (st : scan_state) (para : str) : result scan_state :=
  let text := strip para in
  if is_poem_number text then
    let poems' := append_current (current_poem st) (poems st) in
    match re_search_digits text with
    | None => Raise AttributeError
    | Some num => Ok (mk_scan poems' (front_matter st) (Some (new_poem num)) true)
    end
  else if negb (first_poem_found st) then
    if truthy text || negb (bool_decide (front_matter st = [])) then
      Ok (mk_scan (poems st) (front_matter st ++ [para])
            (current_poem st) (first_poem_found st))
    else Ok st
  else
    match current_poem st with
    | Some p =>
        if bool_decide (text = AUTHOR_NAME) then
          Ok (mk_scan (poems st) (front_matter st)
                (Some (mk_poem (number p) (title p) (lines p) true))
                (first_poem_found st))
        else
          let title' :=
            match title p with
            | None => if truthy text then Some text else None
            | Some t => Some t
            end in
          Ok (mk_scan (poems st) (front_matter st)
                (Some (mk_poem (number p) title' (lines p ++ [para])
                         (has_author_sig p)))
                (first_poem_found st))
    | None => Ok st
    end.

(** [for para in doc.paragraphs: ...] (line 41) *)
Fixpoint scan_paragraphs (paras : list str) (st : scan_state)
  : result scan_state :=
  match paras with
  | [] => Ok st
  | para :: rest => st' ← scan_paragraph st para; scan_paragraphs rest st'
  end.

(** Lines 34-81: the front matter and the poems of a document. *)
Definition segment (paras : list str) : result (list str * list poem) :=
  st ← scan_paragraphs paras init_scan;
  mret (front_matter st, append_current (current_poem st) (poems st)).

(** ** Serialisation (lines 83-130) *)

Definition nl : str := [NEWLINE].

(** The text written to [00_Front_Matter.md] (lines 89-91). *)
Definition render_front_matter (fm : list str) : str :=
  ustr "# Front Matter" ++ nl ++ nl ++
  concat (List.map (fun line => line ++ ustr "  " ++ nl) fm).

(** [any(line.strip() for line in poem['lines'])] (line 98) *)
Definition has_content (p : poem) : bool :=
  List.existsb (fun line => truthy (strip line)) (lines p).

(** Line 103. *)
Definition poem_filename (p : poem) : str :=
  zfill 3 (number p) ++ ustr "_" ++ sanitize_filename (title p) ++ ustr ".md".

(** The truth test [poem['title'] if poem['title'] else other]. *)
Definition title_or (p : poem) (other : str) : str :=
  match title p with
  | Some t => if truthy t then t else other
  | None => other
  end.

(** Lines 120-123. *)
Definition render_line (line : str) : str :=
  if bool_decide (strip line = []) then nl else line ++ ustr "  " ++ nl.

(** Lines 108-112. *)
Definition render_header (p : poem) : str :=
  ustr "---" ++ nl ++
  ustr "title: " ++ [DQUOTE] ++ title_or p (ustr "Untitled") ++ [DQUOTE] ++ nl ++
  ustr "author: " ++ [DQUOTE] ++ AUTHOR_NAME ++ [DQUOTE] ++ nl ++
  ustr "id: " ++ number p ++ nl ++
  ustr "---" ++ nl ++ nl.

(** Lines 126-127. *)
Definition render_signature (p : poem) : str :=
  if has_author_sig p then nl ++ nl ++ ustr "*" ++ AUTHOR_NAME ++ ustr "*"
  else [].

(** Everything written to one poem file (lines 108-127). *)
Definition render_poem (p : poem) : str :=
  render_header p ++
  ustr "# " ++ title_or p (ustr "Poem " ++ number p) ++ nl ++ nl ++
  concat (List.map render_line (lines p)) ++
  render_signature p.

(** [os.path.join(a, b)] of posixpath. *)
Definition os_path_join (a b : str) : str :=
  match b with
  | c :: _ =>
      if c =? SLASH then b
      else match rev a with
           | [] => b
           | d :: _ => if d =? SLASH then a ++ b else a ++ [SLASH] ++ b
           end
  | [] =>
      match rev a with
      | [] => b
      | d :: _ => if d =? SLASH then a ++ b else a ++ [SLASH] ++ b
      end
  end.

(** ** The world and its operations *)

Record world : Type := mk_world {
  document : option (list str); (* paragraphs of INPUT_FILE, if it exists *)
  dirs : gset (list N);
  files : gmap (list N) (list N);
  stdout : list str              (* one entry per call of [print] *)
}.

Definition io (A : Type) : Type := world -> result A * world.

#[export] Instance io_ret : MRet io := fun A a w => (Ok a, w).
#[export] Instance io_bind : MBind io := fun A B f m w =>
  match m w with
  | (Ok a, w') => f a w'
  | (Raise e, w') => (Raise e, w')
  end.

Definition lift {A : Type} (r : result A) : io A := fun w => (r, w).

(** [os.path.exists(INPUT_FILE)]; here a file that exists is a document
    that can be read (see [Faulty] for the other case). *)
Definition input_exists : io bool :=
  fun w => (Ok (bool_decide (is_Some (document w))), w).

(** [[p.text for p in Document(INPUT_FILE).paragraphs]] *)
Definition read_document : io (list str) :=
  fun w => match document w with
           | Some paras => (Ok paras, w)
           | None => (Raise PackageNotFoundError, w)
           end.

Definition print (msg : str) : io unit :=
  fun w => (Ok tt, mk_world (document w) (dirs w) (files w) (stdout w ++ [msg])).

(** [os.makedirs(path, exist_ok=True)], when it succeeds (see [Faulty] for
    the call that raises). *)
Definition os_makedirs (path : str) : io unit :=
  fun w => (Ok tt, mk_world (document w) ({[path]} ∪ dirs w) (files w) (stdout w)).

(** [with open(path, 'w', encoding='utf-8') as f: f.write(...) ...], when
    the file can be opened (see [Faulty] for the call that raises): the
    file is created or replaced, its content is what was written. *)
Definition write_file (path content : str) : io unit :=
  fun w => (Ok tt, mk_world (document w) (dirs w) (<[path := content]> (files w))
              (stdout w)).

(** ** Console messages (lines 28, 39, 92, 129, 132) *)

Definition msg_missing : str :=
  [0x274C] ++ ustr " Error: Could not find '" ++ INPUT_FILE ++ ustr "'".

Definition msg_reading : str :=
  [0x1F4D6] ++ ustr " Reading '" ++ INPUT_FILE ++ ustr "'...".

Definition msg_saved (filename : str) : str :=
  [0x2713] ++ ustr " Saved: " ++ filename.

Definition msg_finished (saved_count : nat) : str :=
  nl ++ [0x1F389] ++ ustr " Finished! Processed " ++ str_of_nat saved_count ++
  ustr " poems into '" ++ OUTPUT_FOLDER ++ ustr "/'".

(** ** The writer as operations on the world *)

(** Lines 86-92. *)
Definition save_front_matter (fm : list str) : io unit :=
  if bool_decide (fm = []) then mret tt
  else
    write_file (os_path_join OUTPUT_FOLDER (ustr "00_Front_Matter.md"))
      (render_front_matter fm);;
    print (msg_saved (ustr "00_Front_Matter.md")).

(** Lines 96-130: the loop over the poems, threading [saved_count]. *)
Fixpoint save_poems (ps : list poem) (saved_count : nat) : io nat :=
  match ps with
  | [] => mret saved_count
  | p :: rest =>
      if negb (has_content p) then save_poems rest saved_count
      else
        let filename := poem_filename p in
        write_file (os_path_join OUTPUT_FOLDER filename) (render_poem p);;
        print (msg_saved filename);;
        save_poems rest (S saved_count)
  end.

(** ** convert_word_to_md (lines 26-132) *)

Definition convert_word_to_md : io unit :=
  found ← input_exists;
  if negb found then
    print msg_missing
  else
    os_makedirs OUTPUT_FOLDER;;
    paras ← read_document;
    print msg_reading;;
    seg ← lift (segment paras);
    save_front_matter (fst seg);;
    saved_count ← save_poems (snd seg) 0%nat;
    print (msg_finished saved_count).

(** ** The marker pattern in words

    What line 24 asks of a line, spelled out: white space, then one or more
    digits [ds], then at most one dot, then white space, and nothing else. *)
Definition marker_shape (s ds : str) : Prop :=
  exists ws dot ws',
    s = ws ++ ds ++ dot ++ ws' /\
    Forall (fun c => is_space c = true) ws /\
    ds <> [] /\
    Forall (fun c => is_decimal c = true) ds /\
    (dot = [] \/ dot = [DOT]) /\
    Forall (fun c => is_space c = true) ws'.

(** ** The segmentation in words

    The notions the specification uses to describe a poem, as functions of
    the paragraphs that follow its marker. *)

(** The paragraph is a poem marker. *)
Definition is_marker (para : str) : bool := is_poem_number (strip para).

(** The paragraph is the author's signature. *)
Definition is_signature (para : str) : bool :=
  bool_decide (strip para = AUTHOR_NAME).

(** The paragraph is blank: empty or white space only. *)
Definition is_blank (para : str) : bool := negb (truthy (strip para)).

(** The trimmed text of the first paragraph that is neither blank nor the
    signature. *)
Fixpoint first_title (content : list str) : option str :=
  match content with
  | [] => None
  | para :: rest =>
      if is_signature para || is_blank para then first_title rest
      else Some (strip para)
  end.

(** The paragraphs kept as body lines: all but the signatures. *)
Definition body_lines (content : list str) : list str :=
  List.filter (fun para => negb (is_signature para)) content.

(** The poem made of a marker with digits [num] and the paragraphs
    [content] that follow it. *)
Definition poem_of (num : str) (content : list str) : poem :=
  mk_poem num (first_title content) (body_lines content)
    (List.existsb is_signature content).

(** Leading blank paragraphs are skipped. *)
Fixpoint skip_blank (paras : list str) : list str :=
  match paras with
  | [] => []
  | para :: rest => if is_blank para then skip_blank rest else paras
  end.

(** The value of a decimal digit, and of a numeral ([int(s)]). *)
Definition digit_value (c : N) : N :=
  if (0x1D7CE <=? c) && (c <=? 0x1D7FF) then (c - 0x1D7CE) mod 10
  else match List.find (fun r => (fst r <=? c) && (c <=? snd r)) decimal_ranges with
       | Some r => c - fst r
       | None => 0
       end.

Definition int_of_str (s : str) : N :=
  fold_left (fun acc c => 10 * acc + digit_value c) s 0.

(** ** The end-to-end scenario of the specification *)

(** [chr(10).join(ls)] *)
Fixpoint join_nl (ls : list str) : str :=
  match ls with
  | [] => []
  | [l] => l
  | l :: rest => l ++ nl ++ join_nl rest
  end.

Definition quoted (s : str) : str := [DQUOTE] ++ s ++ [DQUOTE].

Definition scenario : list str :=
  [ustr "Intro text"; ustr ""; ustr "1"; ustr "First"; ustr "hello world";
   ustr ""; ustr "Urangani T.M"; ustr "2"; ustr "Second"; ustr "goodbye"].

Definition scenario_first : poem :=
  mk_poem (ustr "1") (Some (ustr "First"))
    [ustr "First"; ustr "hello world"; ustr ""] true.

Definition scenario_second : poem :=
  mk_poem (ustr "2") (Some (ustr "Second"))
    [ustr "Second"; ustr "goodbye"] false.

Definition scenario_front_text : str :=
  join_nl [ustr "# Front Matter"; ustr ""; ustr "Intro text  "; ustr "  ";
           ustr ""].

Definition scenario_first_text : str :=
  join_nl [ustr "---";
           ustr "title: " ++ quoted (ustr "First");
           ustr "author: " ++ quoted (ustr "Urangani T.M");
           ustr "id: 1";
           ustr "---";
           ustr "";
           ustr "# First";
           ustr "";
           ustr "First  ";
           ustr "hello world  ";
           ustr "";
           ustr "";
           ustr "";
           ustr "*Urangani T.M*"].

Definition scenario_second_text : str :=
  join_nl [ustr "---";
           ustr "title: " ++ quoted (ustr "Second");
           ustr "author: " ++ quoted (ustr "Urangani T.M");
           ustr "id: 2";
           ustr "---";
           ustr "";
           ustr "# Second";
           ustr "";
           ustr "Second  ";
           ustr "goodbye  ";
           ustr ""].


(** ** The document and the writer as a whole

    Notions used to state what a whole run does. *)

(** The paragraphs before the first marker, and those from it on. *)
Fixpoint front_part (paras : list str) : list str :=
  match paras with
  | [] => []
  | para :: rest => if is_marker para then [] else para :: front_part rest
  end.

Fixpoint poem_part (paras : list str) : list str :=
  match paras with
  | [] => []
  | para :: rest => if is_marker para then paras else poem_part rest
  end.

(** What the scan guarantees of every poem it builds. *)
Definition well_formed (p : poem) : Prop :=
  number p <> [] /\
  Forall (fun c => is_decimal c = true) (number p) /\
  title p = first_title (lines p) /\
  Forall (fun line => is_marker line = false /\ is_signature line = false)
    (lines p).

(** The poems of a scan state are well formed. *)
Definition scan_well_formed (st : scan_state) : Prop :=
  Forall well_formed (poems st) /\
  (forall p, current_poem st = Some p -> well_formed p).

(** The poems that pass the test of line 98. *)
Definition retained (ps : list poem) : list poem := List.filter has_content ps.

(** A write: the path and the content. *)
Definition poem_write (p : poem) : list N * list N :=
  (os_path_join OUTPUT_FOLDER (poem_filename p), render_poem p).

Definition front_matter_path : str :=
  os_path_join OUTPUT_FOLDER (ustr "00_Front_Matter.md").

Definition front_matter_writes (fm : list str) : list (list N * list N) :=
  if bool_decide (fm = []) then []
  else [(front_matter_path, render_front_matter fm)].

Definition front_matter_msgs (fm : list str) : list str :=
  if bool_decide (fm = []) then []
  else [msg_saved (ustr "00_Front_Matter.md")].

(** The writes of a run, in order. *)
Definition run_writes (fm : list str) (ps : list poem) : list (list N * list N) :=
  front_matter_writes fm ++ List.map poem_write (retained ps).

(** Writes applied to the files, one after the other. *)
Definition apply_writes (ws : list (list N * list N))
    (m : gmap (list N) (list N)) : gmap (list N) (list N) :=
  fold_left (fun m kv => <[fst kv := snd kv]> m) ws m.

(** The content last written to [k], if any. *)
Definition last_write (k : str) (ws : list (list N * list N)) : option str :=
  fold_left (fun acc kv => if bool_decide (fst kv = k) then Some (snd kv) else acc)
    ws None.

(** ** The file name in words

    What the specification says of the sanitised title, stated without the
    functions of the code: the forbidden characters are taken out, the
    white space at both ends is taken off, every space becomes an
    underscore, and the first fifty characters are kept. *)

(** The nine characters taken out of a title. *)
Definition forbidden : list N := ustr "<>:/\|?*" ++ [DQUOTE].

(** [kept] is [t] with its forbidden characters taken out, the others in
    their order. *)
Inductive without_forbidden : list N -> list N -> Prop :=
| without_nil : without_forbidden [] []
| without_drop c t kept :
    In c forbidden -> without_forbidden t kept ->
    without_forbidden (c :: t) kept
| without_keep c t kept :
    ~ In c forbidden -> without_forbidden t kept ->
    without_forbidden (c :: t) (c :: kept).

(** [core] is [s] without the white space at its two ends. *)
Definition trimmed (s core : list N) : Prop :=
  exists ws ws',
    s = ws ++ core ++ ws' /\
    Forall (fun c => is_space c = true) ws /\
    Forall (fun c => is_space c = true) ws' /\
    (forall c r, core = c :: r -> is_space c = false) /\
    (forall c r, rev core = c :: r -> is_space c = false).

(** [u] is [s] with an underscore in the place of every space. *)
Definition underscored (s u : list N) : Prop :=
  Forall2 (fun c d => d = if c =? SPACE then UNDERSCORE else c) s u.

(** [name] is the first [n] characters of [s], all of [s] when it is
    shorter. *)
Definition first_chars (n : nat) (s name : list N) : Prop :=
  (exists rest, s = name ++ rest) /\ length name = Nat.min n (length s).

(** The sanitised form of a title that is not empty. *)
Definition sanitized (t name : list N) : Prop :=
  exists kept core under,
    without_forbidden t kept /\ trimmed kept core /\
    underscored core under /\ first_chars 50 under name.

(** ** The run when the environment fails

    The operations above always succeed.  The calls they stand for can
    fail: [os.makedirs] and [open] raise [OSError] (or a subclass, such as
    [FileExistsError] when a regular file has the name of the folder, or
    the error of a file name that is too long), and [Document] raises
    [PackageNotFoundError] on a file that is there but is not a document.
    Here the same run is written over operations that fail as [faults]
    says; each failing call raises at once and leaves the world as it
    was. *)
Module Faulty.

Inductive error : Type :=
| Python : exn -> error   (* an exception of the scan or of the reader *)
| OSError : error         (* raised by os.makedirs or by open *).

Inductive outcome (A : Type) : Type :=
| Done : A -> outcome A
| Raised : error -> outcome A.
Arguments Done {A} _.
Arguments Raised {A} _.

Record faults : Type := mk_faults {
  unreadable : bool;           (* INPUT_FILE is there, Document cannot open it *)
  makedirs_fails : bool;       (* os.makedirs(OUTPUT_FOLDER, ...) raises *)
  open_fails : list N -> bool  (* open(path, 'w') raises *)
}.


Definition fio (A : Type) : Type := world -> outcome A * world.

#[export] Instance fio_ret : MRet fio := fun A a w => (Done a, w).
#[export] Instance fio_bind : MBind fio := fun A B k m w =>
  match m w with
  | (Done a, w') => k a w'
  | (Raised e, w') => (Raised e, w')
  end.

Definition lift {A : Type} (r : result A) : fio A :=
  fun w => (match r with Ok a => Done a | Raise e => Raised (Python e) end, w).

(** [os.path.exists(INPUT_FILE)] *)
Definition input_exists (f : faults) : fio bool :=
  fun w => (Done (bool_decide (is_Some (document w)) || unreadable f), w).

(** [Document(INPUT_FILE)] and its paragraphs *)
Definition read_document (f : faults) : fio (list str) :=
  fun w =>
    if unreadable f then (Raised (Python PackageNotFoundError), w)
    else match document w with
         | Some paras => (Done paras, w)
         | None => (Raised (Python PackageNotFoundError), w)
         end.

Definition print (msg : str) : fio unit :=
  fun w => (Done tt, mk_world (document w) (dirs w) (files w) (stdout w ++ [msg])).

(** [os.makedirs(path, exist_ok=True)] *)
Definition os_makedirs (f : faults) (path : str) : fio unit :=
  fun w =>
    if makedirs_fails f then (Raised OSError, w)
    else (Done tt,
          mk_world (document w) ({[path]} ∪ dirs w) (files w) (stdout w)).

(** [with open(path, 'w', encoding='utf-8') as f: ...] *)
Definition write_file (f : faults) (path content : str) : fio unit :=
  fun w =>
    if open_fails f path then (Raised OSError, w)
    else (Done tt,
          mk_world (document w) (dirs w) (<[path := content]> (files w))
            (stdout w)).

(** Lines 86-92. *)
Definition save_front_matter (f : faults) (fm : list str) : fio unit :=
  if bool_decide (fm = []) then mret tt
  else
    write_file f (os_path_join OUTPUT_FOLDER (ustr "00_Front_Matter.md"))
      (render_front_matter fm);;
    print (msg_saved (ustr "00_Front_Matter.md")).

(** Lines 96-130. *)
Fixpoint save_poems (f : faults) (ps : list poem) (saved_count : nat)
  : fio nat :=
  match ps with
  | [] => mret saved_count
  | p :: rest =>
      if negb (has_content p) then save_poems f rest saved_count
      else
        let filename := poem_filename p in
        write_file f (os_path_join OUTPUT_FOLDER filename) (render_poem p);;
        print (msg_saved filename);;
        save_poems f rest (S saved_count)
  end.

(** Lines 26-132. *)
Definition convert_word_to_md (f : faults) : fio unit :=
  found ← input_exists f;
  if negb found then print msg_missing
  else
    os_makedirs f OUTPUT_FOLDER;;
    paras ← read_document f;
    print msg_reading;;
    seg ← lift (segment paras);
    save_front_matter f (fst seg);;
    saved_count ← save_poems f (snd seg) 0%nat;
    print (msg_finished saved_count).

End Faulty.

(** A file of a run with the message printed once it is written. *)
Definition front_matter_steps (fm : list str)
  : list (list N * list N * list N) :=
  if bool_decide (fm = []) then []
  else [(front_matter_path, render_front_matter fm,
         msg_saved (ustr "00_Front_Matter.md"))].

Definition poem_step (p : poem) : list N * list N * list N :=
  (os_path_join OUTPUT_FOLDER (poem_filename p), render_poem p,
   msg_saved (poem_filename p)).

(** The files of a run, in the order in which they are opened. *)
Definition run_steps (fm : list str) (ps : list poem)
  : list (list N * list N * list N) :=
  front_matter_steps fm ++ List.map poem_step (retained ps).

(** The steps done before the first file that cannot be opened. *)
Fixpoint steps_done (fails : list N -> bool)
    (steps : list (list N * list N * list N))
  : list (list N * list N * list N) :=
  match steps with
  | [] => []
  | s :: rest =>
      if fails (fst (fst s)) then [] else s :: steps_done fails rest
  end.

(** Every file can be opened. *)
Definition all_open (fails : list N -> bool)
    (steps : list (list N * list N * list N)) : bool :=
  List.forallb (fun s => negb (fails (fst (fst s)))) steps.

(** * Properties *)

(** ** Sanity checks of the embedding *)

Example is_poem_number_dot : is_poem_number (ustr "1.") = true.
Proof. reflexivity. Qed.

Example is_poem_number_plain : is_poem_number (ustr "12") = true.
Proof. reflexivity. Qed.

Example is_poem_number_padded : is_poem_number (ustr "  123  ") = true.
Proof. reflexivity. Qed.

Example is_poem_number_newline : is_poem_number (ustr "12" ++ nl) = true.
Proof. reflexivity. Qed.

Example is_poem_number_word : is_poem_number (ustr "12a") = false.
Proof. reflexivity. Qed.

Example is_poem_number_two_dots : is_poem_number (ustr "1..") = false.
Proof. reflexivity. Qed.

Example is_poem_number_arabic_indic : is_poem_number [0x663; 0x2E] = true.
Proof. reflexivity. Qed.

Example re_search_digits_first_run :
  re_search_digits (ustr " a12.3") = Some (ustr "12").
Proof. reflexivity. Qed.

Example strip_both_ends : strip (ustr "  a b  ") = ustr "a b".
Proof. reflexivity. Qed.

Example strip_no_break_space : strip [0xA0; 0x61; 0x3000] = ustr "a".
Proof. reflexivity. Qed.

Example zfill_sign : zfill 3 (ustr "-7") = ustr "-07".
Proof. reflexivity. Qed.

Example str_of_nat_12 : str_of_nat 12 = ustr "12".
Proof. reflexivity. Qed.

Example int_of_str_007 : int_of_str (ustr "007") = 7.
Proof. reflexivity. Qed.

(** ** Character classes *)

Lemma in_ranges_cons lo hi tbl c :
  in_ranges ((lo, hi) :: tbl) c = true <->
  (lo <= c <= hi) \/ in_ranges tbl c = true.
Proof.
  unfold in_ranges. simpl.
  rewrite orb_true_iff, andb_true_iff, !N.leb_le. tauto.
Qed.

Lemma in_ranges_nil c : in_ranges [] c = true <-> False.
Proof. unfold in_ranges. simpl. split; [discriminate | tauto]. Qed.

Lemma space_not_decimal c : is_space c = true -> is_decimal c = false.
Proof.
  intros Hs. destruct (is_decimal c) eqn:Hd; [exfalso | reflexivity].
  unfold is_space, space_ranges in Hs. unfold is_decimal, decimal_ranges in Hd.
  rewrite ?in_ranges_cons, in_ranges_nil in Hs.
  rewrite ?in_ranges_cons, in_ranges_nil in Hd.
  lia.
Qed.

Lemma dot_not_decimal : is_decimal DOT = false.
Proof. reflexivity. Qed.

Lemma newline_is_space : is_space NEWLINE = true.
Proof. reflexivity. Qed.

(** ** The matcher decides the language *)

Lemma lang_cat_inv r1 r2 s :
  lang (Cat r1 r2) s -> exists s1 s2, s = s1 ++ s2 /\ lang r1 s1 /\ lang r2 s2.
Proof. inversion 1; subst. eauto. Qed.

Lemma lang_alt_inv r1 r2 s : lang (Alt r1 r2) s -> lang r1 s \/ lang r2 s.
Proof. inversion 1; subst; auto. Qed.

Lemma lang_class_inv f s : lang (Class f) s -> exists c, s = [c] /\ f c = true.
Proof. inversion 1; subst. eauto. Qed.

Lemma lang_eps_inv s : lang Eps s -> s = [].
Proof. by inversion 1. Qed.

Lemma nullable_lang r : nullable r = true <-> lang r [].
Proof.
  induction r as [| |f|r1 IH1 r2 IH2|r1 IH1 r2 IH2|r IH]; simpl.
  - split; [discriminate | inversion 1].
  - split; [constructor | reflexivity].
  - split; [discriminate | inversion 1].
  - rewrite andb_true_iff, IH1, IH2. split.
    + intros [H1 H2]. change (@nil N) with (@nil N ++ []). by constructor.
    + intros (s1 & s2 & E & H1 & H2)%lang_cat_inv.
      symmetry in E. apply app_eq_nil in E as [-> ->]. done.
  - rewrite orb_true_iff, IH1, IH2. split.
    + intros [H|H]; [by apply lang_alt_l | by apply lang_alt_r].
    + inversion 1; subst; tauto.
  - split; [constructor | reflexivity].
Qed.

Lemma lang_star_cons_inv r c s :
  lang (Star r) (c :: s) ->
  exists s1 s2, s = s1 ++ s2 /\ lang r (c :: s1) /\ lang (Star r) s2.
Proof.
  intros H. remember (Star r) as r' eqn:Er. remember (c :: s) as t eqn:Et.
  revert r c s Er Et.
  induction H as [| | | | | |r0 s1 s2 H1 _ H2 IH2]; intros rr cc ss Er Et;
    try discriminate.
  injection Er as ->.
  destruct s1 as [|c1 s1]; simpl in Et.
  - by apply IH2.
  - injection Et as -> <-. by exists s1, s2.
Qed.

Lemma deriv_lang c r : forall s, lang (deriv c r) s <-> lang r (c :: s).
Proof.
  induction r as [| |f|r1 IH1 r2 IH2|r1 IH1 r2 IH2|r IH]; intros s; simpl.
  - split; inversion 1.
  - split; inversion 1.
  - destruct (f c) eqn:Hf.
    + split; inversion 1; subst; [by constructor | constructor].
    + split; inversion 1; subst. congruence.
  - assert (Hcat : lang (Cat (deriv c r1) r2) s <->
              exists s1 s2, s = s1 ++ s2 /\ lang r1 (c :: s1) /\ lang r2 s2).
    { split.
      - intros (s1 & s2 & -> & H1 & H2)%lang_cat_inv.
        exists s1, s2. split; [done|]. by rewrite <- IH1.
      - intros (s1 & s2 & -> & H1 & H2). constructor; [by apply IH1 | done]. }
    assert (Hinv : lang (Cat r1 r2) (c :: s) <->
              (exists s1 s2, s = s1 ++ s2 /\ lang r1 (c :: s1) /\ lang r2 s2) \/
              (lang r1 [] /\ lang r2 (c :: s))).
    { split.
      - intros (s1 & s2 & E & H1 & H2)%lang_cat_inv.
        destruct s1 as [|c1 s1]; simpl in E.
        + subst. by right.
        + injection E as <- ->. left. by exists s1, s2.
      - intros [(s1 & s2 & -> & H1 & H2) | [H1 H2]].
        + change (c :: s1 ++ s2) with ((c :: s1) ++ s2). by constructor.
        + change (c :: s) with ([] ++ c :: s). by constructor. }
    rewrite Hinv. destruct (nullable r1) eqn:Hn.
    + split.
      * inversion 1; subst; [left; by apply Hcat | right].
        split; [by apply nullable_lang | by apply IH2].
      * intros [H | [H1 H2]]; [apply lang_alt_l; by apply Hcat |].
        apply lang_alt_r. by apply IH2.
    + rewrite Hcat. split; [tauto |]. intros [H | [H1 H2]]; [done |].
      apply nullable_lang in H1. congruence.
  - split.
    + inversion 1; subst; [apply lang_alt_l; by apply IH1 | apply lang_alt_r; by apply IH2].
    + inversion 1; subst; [apply lang_alt_l; by apply IH1 | apply lang_alt_r; by apply IH2].
  - split.
    + intros (s1 & s2 & -> & H1 & H2)%lang_cat_inv.
      change (c :: s1 ++ s2) with ((c :: s1) ++ s2).
      constructor; [by apply IH | done].
    + intros H. apply lang_star_cons_inv in H as (s1 & s2 & -> & H1 & H2).
      constructor; [by apply IH | done].
Qed.

Lemma accepts_lang r s : accepts r s = true <-> lang r s.
Proof.
  revert r. induction s as [|c s IH]; intros r; simpl.
  - apply nullable_lang.
  - rewrite IH. apply deriv_lang.
Qed.

Lemma lang_alphabet r s :
  lang r s -> Forall (fun c => alphabet r c = true) s.
Proof.
  induction 1; simpl in *; try constructor; try done.
  - apply Forall_app. split; eapply Forall_impl; eauto; simpl; intros ? ->;
      auto using orb_true_r.
  - eapply Forall_impl; eauto; simpl; intros ? ->; auto.
  - eapply Forall_impl; eauto; simpl; intros ? ->; auto using orb_true_r.
  - by apply Forall_app.
Qed.

Lemma lang_star_class f s :
  lang (Star (Class f)) s <-> Forall (fun c => f c = true) s.
Proof.
  split.
  - intros H. apply lang_alphabet in H. done.
  - induction 1 as [|c s Hc _ IH]; [constructor |].
    change (c :: s) with ([c] ++ s). constructor; [by constructor | done].
Qed.

(** ** Scanning helpers *)

Lemma drop_while_app_all f (a b : str) :
  Forall (fun c => f c = true) a -> drop_while f (a ++ b) = drop_while f b.
Proof. induction 1 as [|c a Hc _ IH]; simpl; [done | by rewrite Hc]. Qed.

Lemma drop_while_stop f c (s : str) :
  f c = false -> drop_while f (c :: s) = c :: s.
Proof. simpl. by intros ->. Qed.

Lemma take_while_app_all f (a b : str) :
  Forall (fun c => f c = true) a -> take_while f (a ++ b) = a ++ take_while f b.
Proof. induction 1 as [|c a Hc _ IH]; simpl; [done | by rewrite Hc, IH]. Qed.

Lemma drop_while_all f (a : str) :
  Forall (fun c => f c = true) a -> drop_while f a = [].
Proof. induction 1 as [|c a Hc _ IH]; simpl; [done | by rewrite Hc]. Qed.



(** The ends of a stripped string are not white space. *)
Lemma strip_core (ws core ws' : str) :
  Forall (fun c => is_space c = true) ws ->
  Forall (fun c => is_space c = true) ws' ->
  (forall c t, core = c :: t -> is_space c = false) ->
  (forall c t, rev core = c :: t -> is_space c = false) ->
  strip (ws ++ core ++ ws') = core.
Proof.
  intros Hws Hws' Hfirst Hlast. unfold strip, rstrip, lstrip.
  rewrite (drop_while_app_all _ _ _ Hws).
  destruct core as [|c t] eqn:Ec.
  - simpl. by rewrite (drop_while_all _ _ Hws').
  - rewrite <- Ec in *. assert (Hd : drop_while is_space (core ++ ws') = core ++ ws').
    { rewrite Ec. simpl. by rewrite (Hfirst c t Ec). }
    rewrite Hd, rev_app_distr.
    rewrite drop_while_app_all by (by apply Forall_rev).
    destruct (rev core) as [|d u] eqn:Er.
    + apply (f_equal (@rev N)) in Er. rewrite rev_involutive in Er.
      simpl in Er. congruence.
    + rewrite drop_while_stop by eauto. by rewrite <- Er, rev_involutive.
Qed.

Lemma take_drop_while f (s : str) :
  s = take_while f s ++ drop_while f s /\
  Forall (fun c => f c = true) (take_while f s).
Proof.
  induction s as [|c s [E H]]; simpl; [by split |].
  destruct (f c) eqn:Hc; simpl; [|by split].
  split; [congruence | by constructor].
Qed.

Lemma strip_decompose (s : str) :
  exists a b,
    s = a ++ strip s ++ b /\
    Forall (fun c => is_space c = true) a /\
    Forall (fun c => is_space c = true) b.
Proof.
  unfold strip, rstrip, lstrip.
  destruct (take_drop_while is_space s) as [E1 H1].
  set (t := drop_while is_space s) in *.
  destruct (take_drop_while is_space (rev t)) as [E2 H2].
  exists (take_while is_space s), (rev (take_while is_space (rev t))).
  split; [|split; [done | by apply Forall_rev]].
  rewrite <- rev_app_distr, <- E2, rev_involutive. exact E1.
Qed.

(** ** The marker pattern *)

Lemma lang_poem_number s :
  lang POEM_NUMBER_RE s <-> exists ds, marker_shape s ds.
Proof.
  unfold POEM_NUMBER_RE, Plus, Opt, marker_shape. split.
  - intros (ws & s1 & -> & Hws & H)%lang_cat_inv.
    apply lang_cat_inv in H as (ds & s2 & -> & Hds & H).
    apply lang_cat_inv in H as (dot & ws' & -> & Hdot & Hws').
    apply lang_cat_inv in Hds as (d & ds' & -> & (c & -> & Hc)%lang_class_inv & Hds').
    apply lang_star_class in Hws, Hws', Hds'.
    exists ([c] ++ ds'), ws, dot, ws'. repeat split; try done.
    + by constructor.
    + apply lang_alt_inv in Hdot as [(c' & -> & Hc')%lang_class_inv | ->%lang_eps_inv];
        [right | by left].
      apply N.eqb_eq in Hc'. by subst.
  - intros (ds & ws & dot & ws' & -> & Hws & Hne & Hds & Hdot & Hws').
    constructor; [by apply lang_star_class |].
    constructor; [|constructor; [|by apply lang_star_class]].
    + destruct ds as [|c ds']; [done |]. inversion Hds; subst.
      change (c :: ds') with ([c] ++ ds').
      constructor; [by constructor | by apply lang_star_class].
    + destruct Hdot as [-> | ->]; [apply lang_alt_r; constructor |].
      apply lang_alt_l. constructor. apply N.eqb_refl.
Qed.

Lemma marker_shape_newline s ds :
  marker_shape s ds -> marker_shape (s ++ [NEWLINE]) ds.
Proof.
  intros (ws & dot & ws' & -> & Hws & Hne & Hds & Hdot & Hws').
  exists ws, dot, (ws' ++ [NEWLINE]). repeat split; try done.
  - by rewrite <- !app_assoc.
  - apply Forall_app. split; [done |]. by repeat constructor.
Qed.

Lemma is_poem_number_shape s :
  is_poem_number s = true <-> exists ds, marker_shape s ds.
Proof.
  unfold is_poem_number, re_match_anchored.
  rewrite orb_true_iff, accepts_lang, lang_poem_number. split.
  - intros [H | H]; [done |].
    destruct (rev s) as [|c s'] eqn:Er; [discriminate |].
    apply andb_true_iff in H as [Hc H]. apply N.eqb_eq in Hc. subst c.
    apply accepts_lang, lang_poem_number in H as [ds H]. exists ds.
    apply (f_equal (@rev N)) in Er. rewrite rev_involutive in Er.
    simpl in Er. subst s. by apply marker_shape_newline.
  - by left.
Qed.

Lemma marker_shape_tail_not_decimal (dot ws' : str) :
  (dot = [] \/ dot = [DOT]) ->
  Forall (fun c => is_space c = true) ws' ->
  take_while is_decimal (dot ++ ws') = [].
Proof.
  intros [-> | ->] Hws'; [|reflexivity]. simpl.
  destruct Hws' as [|c ws' Hc _]; [done |]. simpl.
  by rewrite (space_not_decimal _ Hc).
Qed.

Lemma marker_shape_search s ds :
  marker_shape s ds -> re_search_digits s = Some ds.
Proof.
  intros (ws & dot & ws' & -> & Hws & Hne & Hds & Hdot & Hws').
  unfold re_search_digits. rewrite drop_while_app_all.
  - destruct ds as [|c ds']; [done |]. inversion Hds as [|? ? Hc Hds']; subst.
    cbn [app]. rewrite drop_while_stop by (by rewrite Hc). f_equal.
    change (c :: ds' ++ dot ++ ws') with ((c :: ds') ++ dot ++ ws').
    rewrite take_while_app_all by done.
    rewrite marker_shape_tail_not_decimal by done. apply app_nil_r.
  - eapply Forall_impl; [exact Hws |]. simpl. intros c Hc.
    by rewrite (space_not_decimal _ Hc).
Qed.

Lemma decimal_not_space c : is_decimal c = true -> is_space c = false.
Proof.
  intros Hd. destruct (is_space c) eqn:Hs; [|done].
  apply space_not_decimal in Hs. congruence.
Qed.

(** Stripping a marker line leaves the digits and the dot. *)
Lemma marker_shape_strip s ds :
  marker_shape s ds -> marker_shape (strip s) ds.
Proof.
  intros (ws & dot & ws' & -> & Hws & Hne & Hds & Hdot & Hws').
  assert (E : strip (ws ++ ds ++ dot ++ ws') = ds ++ dot).
  { rewrite (app_assoc ds dot ws'). apply strip_core; try done.
    - intros c t E. destruct ds as [|d ds']; [done |].
      simpl in E. injection E as <- _. inversion Hds; subst.
      by apply decimal_not_space.
    - intros c t E. rewrite rev_app_distr in E.
      destruct Hdot as [-> | ->]; simpl in E.
      + apply decimal_not_space.
        assert (Hin : In c (rev ds)) by (rewrite E; by left).
        apply in_rev in Hin. rewrite Forall_forall in Hds.
        apply Hds. by apply list_elem_of_In.
      + by injection E as <- _. }
  rewrite E. exists [], dot, []. repeat split; try done.
  by rewrite app_nil_r.
Qed.

(** ** One step of the scan *)

Lemma is_marker_shape para :
  is_marker para = true <-> exists ds, marker_shape (strip para) ds.
Proof. apply is_poem_number_shape. Qed.

Lemma scan_marker st para ds :
  marker_shape (strip para) ds ->
  scan_paragraph st para =
  Ok (mk_scan (append_current (current_poem st) (poems st)) (front_matter st)
        (Some (new_poem ds)) true).
Proof.
  intros H. unfold scan_paragraph.
  rewrite (proj2 (is_poem_number_shape _)) by eauto.
  by rewrite (marker_shape_search _ _ H).
Qed.

Lemma scan_front st para :
  is_marker para = false -> first_poem_found st = false ->
  scan_paragraph st para =
  Ok (if is_blank para && bool_decide (front_matter st = []) then st
      else mk_scan (poems st) (front_matter st ++ [para]) (current_poem st) false).
Proof.
  unfold is_marker, is_blank, scan_paragraph. intros -> Hf. rewrite Hf. simpl.
  destruct (truthy (strip para)), (bool_decide (front_matter st = [])); done.
Qed.

Lemma scan_content st p para :
  is_marker para = false -> current_poem st = Some p ->
  first_poem_found st = true ->
  scan_paragraph st para =
  Ok (mk_scan (poems st) (front_matter st)
        (Some (if is_signature para
               then mk_poem (number p) (title p) (lines p) true
               else mk_poem (number p)
                      (match title p with
                       | Some t => Some t
                       | None => if is_blank para then None else Some (strip para)
                       end)
                      (lines p ++ [para]) (has_author_sig p)))
        true).
Proof.
  unfold is_marker, is_signature, is_blank, scan_paragraph.
  intros -> -> ->. simpl.
  destruct (bool_decide (strip para = AUTHOR_NAME)); [done |].
  destruct (title p), (truthy (strip para)); done.
Qed.

Lemma scan_paragraph_total st para : exists st', scan_paragraph st para = Ok st'.
Proof.
  destruct (is_marker para) eqn:E.
  - apply is_marker_shape in E as [ds H]. rewrite (scan_marker _ _ _ H). eauto.
  - unfold is_marker in E. unfold scan_paragraph. rewrite E.
    repeat case_match; eauto.
Qed.

(** ** The loop *)

Lemma scan_paragraphs_cons para rest st st' :
  scan_paragraph st para = Ok st' ->
  scan_paragraphs (para :: rest) st = scan_paragraphs rest st'.
Proof. simpl. by intros ->. Qed.

Lemma scan_paragraphs_app a b st st' :
  scan_paragraphs a st = Ok st' ->
  scan_paragraphs (a ++ b) st = scan_paragraphs b st'.
Proof.
  revert st. induction a as [|para a IH]; intros st; simpl.
  - by intros [= ->].
  - destruct (scan_paragraph st para) as [st1|e]; simpl; [apply IH | done].
Qed.

(** The scan never raises: the search of line 50 succeeds on every marker. *)
Lemma scan_paragraphs_total paras st :
  exists st', scan_paragraphs paras st = Ok st'.
Proof.
  revert st. induction paras as [|para rest IH]; intros st; [by eexists |].
  destruct (scan_paragraph_total st para) as [st1 H1].
  rewrite (scan_paragraphs_cons _ _ _ _ H1). apply IH.
Qed.

Lemma scan_paragraph_poems st para st' :
  scan_paragraph st para = Ok st' -> exists extra, poems st' = poems st ++ extra.
Proof.
  destruct (is_marker para) eqn:E.
  - apply is_marker_shape in E as [ds H]. rewrite (scan_marker _ _ _ H).
    intros [= <-]. simpl. destruct (current_poem st); simpl; [eauto |].
    exists []. by rewrite app_nil_r.
  - unfold is_marker in E. unfold scan_paragraph. rewrite E.
    intros H. exists []. rewrite app_nil_r.
    repeat case_match; by injection H as <-.
Qed.

Lemma scan_paragraphs_poems paras st st' :
  scan_paragraphs paras st = Ok st' -> exists extra, poems st' = poems st ++ extra.
Proof.
  revert st. induction paras as [|para rest IH]; intros st.
  - intros [= <-]. exists []. by rewrite app_nil_r.
  - destruct (scan_paragraph_total st para) as [st1 H1].
    rewrite (scan_paragraphs_cons _ _ _ _ H1). intros H.
    apply IH in H as [e2 ->]. apply scan_paragraph_poems in H1 as [e1 ->].
    exists (e1 ++ e2). by rewrite app_assoc.
Qed.

(** Paragraphs inside a poem: the title is fixed by the first paragraph that
    is neither blank nor the signature, signatures set the flag, every
    other paragraph becomes a line. *)
Lemma scan_content_run content : forall st p,
  Forall (fun para => is_marker para = false) content ->
  current_poem st = Some p -> first_poem_found st = true ->
  scan_paragraphs content st =
  Ok (mk_scan (poems st) (front_matter st)
        (Some (mk_poem (number p)
                 (match title p with
                  | Some t => Some t
                  | None => first_title content
                  end)
                 (lines p ++ body_lines content)
                 (has_author_sig p || List.existsb is_signature content)))
        true).
Proof.
  induction content as [|para rest IH]; intros st p Hm Hc Hf.
  - simpl. destruct st as [ps fm cur fpf], p as [n t l a]; simpl in *.
    subst. rewrite app_nil_r, orb_false_r. by destruct t.
  - inversion Hm as [|? ? Hpara Hrest]; subst.
    rewrite (scan_paragraphs_cons _ _ _ _ (scan_content _ _ _ Hpara Hc Hf)).
    erewrite (IH _ _ Hrest); [|simpl; reflexivity|reflexivity].
    simpl. unfold body_lines. simpl.
    destruct (is_signature para); simpl.
    + by rewrite orb_true_r.
    + rewrite <- app_assoc. simpl. destruct (title p), (is_blank para); done.
Qed.

(** Paragraphs before the first marker. *)
Lemma scan_front_run pre : forall st,
  Forall (fun para => is_marker para = false) pre ->
  first_poem_found st = false ->
  scan_paragraphs pre st =
  Ok (mk_scan (poems st)
        (front_matter st ++
           (if bool_decide (front_matter st = []) then skip_blank pre else pre))
        (current_poem st) false).
Proof.
  induction pre as [|para rest IH]; intros st Hm Hf.
  - simpl. destruct st; simpl in *. subst.
    case_bool_decide; by rewrite app_nil_r.
  - inversion Hm as [|? ? Hpara Hrest]; subst.
    rewrite (scan_paragraphs_cons _ _ _ _ (scan_front _ _ Hpara Hf)).
    destruct (is_blank para) eqn:Hb; simpl.
    + case_bool_decide as Hfm; simpl.
      * rewrite (IH _ Hrest Hf). rewrite Hb. by rewrite bool_decide_true.
      * erewrite (IH _ Hrest); [|reflexivity]. simpl.
        rewrite bool_decide_false by (by destruct (front_matter st)).
        by rewrite <- app_assoc.
    + erewrite (IH _ Hrest); [|reflexivity]. simpl. rewrite Hb.
      rewrite bool_decide_false by (by destruct (front_matter st)).
      rewrite <- app_assoc. by case_bool_decide.
Qed.

(** After the first marker the front matter is closed. *)
Lemma scan_paragraph_closed st para st' :
  scan_paragraph st para = Ok st' -> first_poem_found st = true ->
  front_matter st' = front_matter st /\ first_poem_found st' = true.
Proof.
  intros H Hf. destruct (is_marker para) eqn:E.
  - apply is_marker_shape in E as [ds Hs]. rewrite (scan_marker _ _ _ Hs) in H.
    by injection H as <-.
  - unfold is_marker in E. unfold scan_paragraph in H. rewrite E, Hf in H.
    simpl in H. repeat case_match; by injection H as <-.
Qed.

Lemma scan_paragraphs_closed paras st st' :
  scan_paragraphs paras st = Ok st' -> first_poem_found st = true ->
  front_matter st' = front_matter st /\ first_poem_found st' = true.
Proof.
  revert st. induction paras as [|para rest IH]; intros st.
  - by intros [= <-].
  - destruct (scan_paragraph_total st para) as [st1 H1].
    rewrite (scan_paragraphs_cons _ _ _ _ H1). intros H Hf.
    destruct (scan_paragraph_closed _ _ _ H1 Hf) as [E1 F1].
    destruct (IH _ H F1) as [E2 F2]. split; congruence.
Qed.

Lemma segment_unfold paras st :
  scan_paragraphs paras init_scan = Ok st ->
  segment paras =
  Ok (front_matter st, append_current (current_poem st) (poems st)).
Proof. unfold segment. by intros ->. Qed.

(** Every poem of a document, in its place in the list of poems. *)
Lemma segment_poem pre m ds content rest :
  marker_shape (strip m) ds ->
  Forall (fun para => is_marker para = false) content ->
  (rest = [] \/ exists m' rest', rest = m' :: rest' /\ is_marker m' = true) ->
  exists fm before after,
    segment pre = Ok (fm, before) /\
    segment (pre ++ m :: content ++ rest) =
    Ok (fm, before ++ poem_of ds content :: after).
Proof.
  intros Hm Hc Hrest.
  destruct (scan_paragraphs_total pre init_scan) as [st1 H1].
  pose proof (scan_marker st1 m ds Hm) as H2.
  set (st2 := mk_scan (append_current (current_poem st1) (poems st1))
                (front_matter st1) (Some (new_poem ds)) true) in H2.
  pose proof (scan_content_run content st2 (new_poem ds) Hc eq_refl eq_refl) as H3.
  simpl in H3. fold (poem_of ds content) in H3.
  set (before := append_current (current_poem st1) (poems st1)) in *.
  assert (H123 : forall tl, scan_paragraphs (pre ++ m :: content ++ tl) init_scan =
     scan_paragraphs tl (mk_scan before (front_matter st1)
                           (Some (poem_of ds content)) true)).
  { intros tl. rewrite (scan_paragraphs_app _ _ _ _ H1).
    rewrite (scan_paragraphs_cons _ _ _ _ H2).
    by rewrite (scan_paragraphs_app _ _ _ _ H3). }
  destruct Hrest as [-> | (m' & rest' & -> & Hm')].
  - exists (front_matter st1), before, [].
    split; [by apply segment_unfold |].
    by rewrite (segment_unfold _ _ (H123 [])).
  - apply is_marker_shape in Hm' as [ds' Hm'].
    specialize (H123 (m' :: rest')).
    rewrite (scan_paragraphs_cons _ _ _ _ (scan_marker _ _ _ Hm')) in H123.
    simpl in H123.
    destruct (scan_paragraphs_total rest'
      (mk_scan (before ++ [poem_of ds content]) (front_matter st1)
         (Some (new_poem ds')) true)) as [st5 H5].
    rewrite H5 in H123. rewrite (segment_unfold _ _ H123).
    destruct (scan_paragraphs_closed _ _ _ H5 eq_refl) as [Efm _].
    apply scan_paragraphs_poems in H5 as [extra E]. simpl in E, Efm.
    rewrite E, Efm.
    exists (front_matter st1), before.
    destruct (current_poem st5) as [q|]; simpl.
    + exists (extra ++ [q]). split; [by apply segment_unfold |].
      by rewrite <- !app_assoc.
    + exists extra. split; [by apply segment_unfold |].
      by rewrite <- !app_assoc.
Qed.

(** ** The writer *)

Lemma save_front_matter_empty w : save_front_matter [] w = (Ok tt, w).
Proof. reflexivity. Qed.

Lemma save_front_matter_nonempty fm w :
  fm <> [] ->
  save_front_matter fm w =
  (Ok tt,
   mk_world (document w) (dirs w)
     (<[os_path_join OUTPUT_FOLDER (ustr "00_Front_Matter.md") :=
          render_front_matter fm]> (files w))
     (stdout w ++ [msg_saved (ustr "00_Front_Matter.md")])).
Proof.
  intros H. unfold save_front_matter. by rewrite bool_decide_false.
Qed.

Lemma save_poems_skip p rest n w :
  has_content p = false -> save_poems (p :: rest) n w = save_poems rest n w.
Proof. simpl. by intros ->. Qed.

Lemma save_poems_write p rest n w :
  has_content p = true ->
  save_poems (p :: rest) n w =
  save_poems rest (S n)
    (mk_world (document w) (dirs w)
       (<[os_path_join OUTPUT_FOLDER (poem_filename p) := render_poem p]>
          (files w))
       (stdout w ++ [msg_saved (poem_filename p)])).
Proof. simpl. by intros ->. Qed.

Lemma save_poems_app a : forall b n w,
  save_poems (a ++ b) n w =
  match save_poems a n w with
  | (Ok k, w') => save_poems b k w'
  | (Raise e, w') => (Raise e, w')
  end.
Proof.
  induction a as [|p a IH]; intros b n w; [done |].
  destruct (has_content p) eqn:Hp.
  - rewrite <- app_comm_cons, !save_poems_write by done. apply IH.
  - rewrite <- app_comm_cons, !save_poems_skip by done. apply IH.
Qed.

Lemma convert_word_to_md_missing w :
  document w = None ->
  convert_word_to_md w =
  (Ok tt, mk_world (document w) (dirs w) (files w) (stdout w ++ [msg_missing])).
Proof.
  intros H. unfold convert_word_to_md, mbind, io_bind, input_exists.
  rewrite bool_decide_false by (rewrite H; by intros [? ?]). reflexivity.
Qed.

Lemma convert_word_to_md_found w paras fm ps :
  document w = Some paras -> segment paras = Ok (fm, ps) ->
  convert_word_to_md w =
  (save_front_matter fm;;
   saved_count ← save_poems ps 0%nat;
   print (msg_finished saved_count))
    (mk_world (document w) ({[OUTPUT_FOLDER]} ∪ dirs w) (files w)
       (stdout w ++ [msg_reading])).
Proof.
  intros Hd Hs. unfold convert_word_to_md.
  unfold mbind at 1. unfold io_bind at 1. unfold input_exists.
  rewrite Hd. rewrite bool_decide_true by eauto. cbn [negb].
  unfold mbind at 1. unfold io_bind at 1. unfold os_makedirs.
  unfold mbind at 1. unfold io_bind at 1. unfold read_document. cbn [document].
  rewrite Hd.
  unfold mbind at 1. unfold io_bind at 1. unfold print at 1.
  unfold mbind at 1. unfold io_bind at 1. unfold lift. rewrite Hs.
  reflexivity.
Qed.

Lemma insert_congr (k k' v v' : list N) (m m' : gmap (list N) (list N)) :
  k = k' -> v = v' -> m = m' -> <[k := v]> m = <[k' := v']> m'.
Proof. by intros -> -> ->. Qed.

Lemma world_congr (d : option (list (list N))) (r : gset (list N)) (f f' : gmap (list N) (list N)) (o o' : list (list N)) :
  f = f' -> o = o' ->
  (Ok tt, mk_world d r f o) = (Ok tt, mk_world d r f' o').
Proof. by intros -> ->. Qed.

(** C1. The end-to-end scenario of the specification: the segmentation
    gives the front matter and two poems, and the run writes three files,
    [00_Front_Matter.md] with the introduction, [001_First.md] with title
    First, the lines First and hello world, a stanza break and the
    signature, and [002_Second.md] with title Second, the line goodbye and
    no signature. *)
Theorem end_to_end_scenario (w : world) :
  document w = Some scenario ->
  segment scenario =
    Ok ([ustr "Intro text"; ustr ""], [scenario_first; scenario_second]) /\
  convert_word_to_md w =
    (Ok tt,
     mk_world (document w) ({[OUTPUT_FOLDER]} ∪ dirs w)
       (<[ustr "markdown_poems/002_Second.md" := scenario_second_text]>
          (<[ustr "markdown_poems/001_First.md" := scenario_first_text]>
             (<[ustr "markdown_poems/00_Front_Matter.md" := scenario_front_text]>
                (files w))))
       (stdout w ++
          [msg_reading; msg_saved (ustr "00_Front_Matter.md");
           msg_saved (ustr "001_First.md"); msg_saved (ustr "002_Second.md");
           msg_finished 2])).
Proof.
  intros Hd.
  assert (Hs : segment scenario =
    Ok ([ustr "Intro text"; ustr ""], [scenario_first; scenario_second]))
    by (vm_compute; reflexivity).
  split; [exact Hs |].
  rewrite (convert_word_to_md_found _ _ _ _ Hd Hs).
  unfold mbind at 1. unfold io_bind at 1.
  rewrite save_front_matter_nonempty by done.
  unfold mbind at 1. unfold io_bind at 1.
  rewrite save_poems_write by (vm_compute; reflexivity).
  rewrite save_poems_write by (vm_compute; reflexivity).
  cbn [save_poems mret io_ret]. unfold print.
  cbn [document dirs files stdout].
  apply world_congr.
  - repeat (apply insert_congr; [vm_compute; reflexivity .. |]). reflexivity.
  - rewrite <- !app_assoc. f_equal.
Qed.

Lemma end_to_end_scenario_witness :
  convert_word_to_md (mk_world (Some scenario) ∅ ∅ []) =
  (Ok tt,
   mk_world (Some scenario) ({[OUTPUT_FOLDER]} ∪ ∅)
     (<[ustr "markdown_poems/002_Second.md" := scenario_second_text]>
        (<[ustr "markdown_poems/001_First.md" := scenario_first_text]>
           (<[ustr "markdown_poems/00_Front_Matter.md" := scenario_front_text]>
              ∅)))
     [msg_reading; msg_saved (ustr "00_Front_Matter.md");
      msg_saved (ustr "001_First.md"); msg_saved (ustr "002_Second.md");
      msg_finished 2]).
Proof.
  exact (proj2 (end_to_end_scenario (mk_world (Some scenario) ∅ ∅ []) eq_refl)).
Defined.

(** C9. When the input file is missing the run prints one message and
    returns normally: no directory is created, no file is written, no
    exception is raised. *)
Theorem missing_input_aborts (w : world) :
  document w = None ->
  convert_word_to_md w =
  (Ok tt, mk_world (document w) (dirs w) (files w) (stdout w ++ [msg_missing])) /\
  dirs (snd (convert_word_to_md w)) = dirs w /\
  files (snd (convert_word_to_md w)) = files w /\
  (forall e, fst (convert_word_to_md w) <> Raise e).
Proof.
  intros H. rewrite (convert_word_to_md_missing _ H). simpl. by repeat split.
Qed.

Lemma missing_input_aborts_witness :
  convert_word_to_md (mk_world None ∅ ∅ []) =
  (Ok tt, mk_world None ∅ ∅ [msg_missing]).
Proof.
  exact (proj1 (missing_input_aborts (mk_world None ∅ ∅ []) eq_refl)).
Defined.

(** ** Marker recognition *)

Lemma is_poem_number_chars s c :
  is_poem_number s = true -> In c s ->
  is_space c = true \/ is_decimal c = true \/ c = DOT.
Proof.
  intros (ds & ws & dot & ws' & -> & Hws & _ & Hds & Hdot & Hws')%is_poem_number_shape.
  rewrite !in_app_iff. rewrite Forall_forall in Hws, Hds, Hws'.
  setoid_rewrite list_elem_of_In in Hws.
  setoid_rewrite list_elem_of_In in Hds.
  setoid_rewrite list_elem_of_In in Hws'.
  intros [H | [H | [H | H]]]; auto.
  destruct Hdot as [-> | ->]; [done |]. destruct H as [<- | []]. auto.
Qed.

(** C2. Every string of the form white space, digits, optional dot, white
    space is recognised as a poem marker, the search of line 50 returns
    its run of digits, and the scan starts a poem with that number; a
    string with a character that is neither a digit, nor a dot, nor white
    space is not a marker. *)
Theorem marker_recognition :
  (forall s ds,
      marker_shape s ds ->
      is_poem_number s = true /\
      re_search_digits s = Some ds /\
      forall st,
        scan_paragraph st s =
        Ok (mk_scan (append_current (current_poem st) (poems st))
              (front_matter st) (Some (mk_poem ds None [] false)) true)) /\
  (forall s c,
      In c s -> is_decimal c = false -> c <> DOT -> is_space c = false ->
      is_poem_number s = false).
Proof.
  split.
  - intros s ds H. split; [|split].
    + apply is_poem_number_shape. eauto.
    + by apply marker_shape_search.
    + intros st. apply scan_marker. by apply marker_shape_strip.
  - intros s c Hin Hd Hdot Hs.
    destruct (is_poem_number s) eqn:E; [exfalso | done].
    destruct (is_poem_number_chars _ _ E Hin) as [H | [H | H]]; congruence.
Qed.

Lemma marker_recognition_witness :
  (is_poem_number (ustr "  12. ") = true /\
   re_search_digits (ustr "  12. ") = Some (ustr "12")) /\
  is_poem_number (ustr "12a") = false.
Proof.
  split.
  - assert (H : marker_shape (ustr "  12. ") (ustr "12")).
    { exists (ustr "  "), [DOT], (ustr " ").
      repeat split; try done; try (by repeat constructor); by right. }
    destruct (proj1 marker_recognition _ _ H) as (H1 & H2 & _). by split.
  - apply (proj2 marker_recognition (ustr "12a") 0x61); try done.
    simpl. tauto.
Defined.

(** ** The number of a poem *)

Lemma render_header_id p :
  render_header p =
  join_nl [ustr "---";
           ustr "title: " ++ quoted (title_or p (ustr "Untitled"));
           ustr "author: " ++ quoted AUTHOR_NAME;
           ustr "id: " ++ number p;
           ustr "---"; []; []].
Proof.
  unfold render_header, join_nl, quoted. by rewrite <- ?app_assoc.
Qed.

(** C6, amended. The number of a poem is the run of digits of its marker,
    kept as text exactly as written: not empty, digits only, not padded and
    not normalised; the metadata block writes that same text after [id:]. *)
Theorem poem_number_raw (para ds : str) (st : scan_state) :
  marker_shape (strip para) ds ->
  scan_paragraph st para =
    Ok (mk_scan (append_current (current_poem st) (poems st)) (front_matter st)
          (Some (mk_poem ds None [] false)) true) /\
  ds <> [] /\
  Forall (fun c => is_decimal c = true) ds /\
  (exists ws tail, strip para = ws ++ ds ++ tail) /\
  forall p,
    number p = ds ->
    render_header p =
    join_nl [ustr "---";
             ustr "title: " ++ quoted (title_or p (ustr "Untitled"));
             ustr "author: " ++ quoted AUTHOR_NAME;
             ustr "id: " ++ ds;
             ustr "---"; []; []].
Proof.
  intros H. split; [by apply scan_marker |].
  destruct H as (ws & dot & ws' & E & _ & Hne & Hds & _).
  repeat split; try done.
  - exists ws, (dot ++ ws'). done.
  - intros p <-. apply render_header_id.
Qed.

Lemma poem_number_raw_witness :
  scan_paragraph init_scan (ustr " 007. ") =
  Ok (mk_scan [] [] (Some (mk_poem (ustr "007") None [] false)) true).
Proof.
  refine (proj1 (poem_number_raw (ustr " 007. ") (ustr "007") init_scan _)).
  exists [], [DOT], [].
  repeat split; try done; try (by repeat constructor); by right.
Defined.

(** C6 as stated fails: the marker [0] is recognised and gives a poem whose
    number is not a positive integer. *)
Lemma marker_zero_not_positive :
  is_marker (ustr "0") = true /\
  scan_paragraph init_scan (ustr "0") =
    Ok (mk_scan [] [] (Some (mk_poem (ustr "0") None [] false)) true) /\
  ~ (0 < int_of_str (number (mk_poem (ustr "0") None [] false))).
Proof. repeat split. vm_compute. discriminate. Qed.

(** ** Front matter *)

Lemma skip_blank_split pre :
  exists blanks,
    pre = blanks ++ skip_blank pre /\
    Forall (fun para => is_blank para = true) blanks /\
    (forall para rest, skip_blank pre = para :: rest -> is_blank para = false).
Proof.
  induction pre as [|para rest (blanks & E & Hb & Hk)]; simpl.
  - exists []. repeat split; [constructor | discriminate].
  - destruct (is_blank para) eqn:Hp.
    + exists (para :: blanks). repeat split; [simpl; congruence | by constructor | done].
    + exists []. repeat split; [constructor |]. by intros ? ? [= <- _].
Qed.

(** C7. Before the first marker every paragraph is kept as it is, except
    the blank ones that come before any other; a document without markers
    has no poems and the front matter is all of it but the leading blank
    paragraphs; the paragraphs after the first marker add nothing. *)
Theorem front_matter_accumulation (pre : list str) :
  Forall (fun para => is_marker para = false) pre ->
  segment pre = Ok (skip_blank pre, []) /\
  (forall m rest,
      is_marker m = true ->
      exists ps, segment (pre ++ m :: rest) = Ok (skip_blank pre, ps)) /\
  (exists blanks,
      pre = blanks ++ skip_blank pre /\
      Forall (fun para => is_blank para = true) blanks /\
      (forall para rest, skip_blank pre = para :: rest -> is_blank para = false)).
Proof.
  intros Hpre. pose proof (scan_front_run pre init_scan Hpre eq_refl) as H.
  simpl in H. split; [|split].
  - by rewrite (segment_unfold _ _ H).
  - intros m rest Hm. apply is_marker_shape in Hm as [ds Hm].
    destruct (scan_paragraphs_total rest
      (mk_scan [] (skip_blank pre) (Some (new_poem ds)) true)) as [st' H'].
    assert (Hall : scan_paragraphs (pre ++ m :: rest) init_scan = Ok st').
    { rewrite (scan_paragraphs_app _ _ _ _ H).
      by rewrite (scan_paragraphs_cons _ _ _ _ (scan_marker _ _ _ Hm)). }
    destruct (scan_paragraphs_closed _ _ _ H' eq_refl) as [Efm _].
    rewrite (segment_unfold _ _ Hall), Efm. simpl. eauto.
  - apply skip_blank_split.
Qed.

Lemma front_matter_accumulation_witness :
  segment [ustr " "; ustr "Intro"; ustr ""; ustr "  more "] =
  Ok ([ustr "Intro"; ustr ""; ustr "  more "], []).
Proof.
  refine (proj1 (front_matter_accumulation
                   [ustr " "; ustr "Intro"; ustr ""; ustr "  more "] _)).
  by repeat constructor.
Defined.

(** ** Titles *)

Lemma first_title_none content :
  first_title content = None <->
  Forall (fun para => is_blank para = true \/ is_signature para = true) content.
Proof.
  induction content as [|para rest IH]; simpl; [by split |].
  destruct (is_signature para) eqn:Hs, (is_blank para) eqn:Hb; simpl;
    rewrite ?IH; split; try (intros H; constructor; auto; fail);
    try (by inversion 1); try done.
  inversion 1 as [|? ? [?|?] ?]; congruence.
Qed.

Lemma body_lines_cons q rest :
  body_lines (q :: rest) =
  if is_signature q then body_lines rest else q :: body_lines rest.
Proof. unfold body_lines. cbn [List.filter]. by destruct (is_signature q). Qed.

Lemma first_title_some content t :
  first_title content = Some t ->
  exists skipped para tail,
    content = skipped ++ para :: tail /\
    Forall (fun q => is_blank q = true \/ is_signature q = true) skipped /\
    is_blank para = false /\ is_signature para = false /\
    t = strip para /\ In para (body_lines content).
Proof.
  induction content as [|q rest IH]; [discriminate |]. cbn [first_title].
  destruct (is_signature q) eqn:Hs; cbn [orb].
  - intros (skipped & para & tail & -> & Hsk & Hb & Hp & -> & Hin)%IH.
    exists (q :: skipped), para, tail.
    split; [done |]. split; [constructor; auto |]. do 3 (split; [done |]).
    by rewrite body_lines_cons, Hs.
  - destruct (is_blank q) eqn:Hb.
    + intros (skipped & para & tail & -> & Hsk & Hb' & Hp & -> & Hin)%IH.
      exists (q :: skipped), para, tail.
      split; [done |]. split; [constructor; auto |]. do 3 (split; [done |]).
      rewrite body_lines_cons, Hs. by right.
    + intros [= <-]. exists [], q, rest.
      split; [done |]. split; [constructor |]. do 3 (split; [done |]).
      rewrite body_lines_cons, Hs. by left.
Qed.

(** C3. The poem made of a marker and the paragraphs up to the next marker
    or the end of the document has, as title, the trimmed text of the first
    paragraph that is neither blank nor the signature, and no title when
    there is none; that paragraph is among its lines.  With the paragraphs
    of the specification the title is Sunset Over the Bay and both that
    line and line two are in the body. *)
Theorem title_extraction :
  (forall pre m ds content rest,
      marker_shape (strip m) ds ->
      Forall (fun para => is_marker para = false) content ->
      (rest = [] \/ exists m' rest', rest = m' :: rest' /\ is_marker m' = true) ->
      (exists fm before after,
          segment pre = Ok (fm, before) /\
          segment (pre ++ m :: content ++ rest) =
          Ok (fm, before ++
                    mk_poem ds (first_title content) (body_lines content)
                      (List.existsb is_signature content) :: after)) /\
      (first_title content = None <->
       Forall (fun para => is_blank para = true \/ is_signature para = true)
         content) /\
      (forall t,
          first_title content = Some t ->
          exists skipped para tail,
            content = skipped ++ para :: tail /\
            Forall (fun q => is_blank q = true \/ is_signature q = true) skipped /\
            is_blank para = false /\ is_signature para = false /\
            t = strip para /\ In para (body_lines content))) /\
  segment [ustr "1"; ustr ""; ustr "  "; ustr "Sunset Over the Bay";
           ustr "line two"] =
  Ok ([], [mk_poem (ustr "1") (Some (ustr "Sunset Over the Bay"))
             [ustr ""; ustr "  "; ustr "Sunset Over the Bay"; ustr "line two"]
             false]).
Proof.
  split; [|by vm_compute].
  intros pre m ds content rest Hm Hc Hrest. split; [|split].
  - apply (segment_poem pre m ds content rest Hm Hc Hrest).
  - apply first_title_none.
  - apply first_title_some.
Qed.

Lemma title_extraction_witness :
  exists fm before after,
    segment [ustr "intro"] = Ok (fm, before) /\
    segment ([ustr "intro"] ++ ustr "3." ::
             [ustr " "; ustr " A title "; ustr "Urangani T.M"] ++ []) =
    Ok (fm, before ++
              mk_poem (ustr "3") (Some (ustr "A title"))
                [ustr " "; ustr " A title "] true :: after).
Proof.
  refine (proj1 (proj1 title_extraction [ustr "intro"] (ustr "3.") (ustr "3")
                   [ustr " "; ustr " A title "; ustr "Urangani T.M"] [] _ _ _)).
  - exists [], [DOT], []. repeat split; try done; try (by repeat constructor);
      by right.
  - by repeat constructor.
  - by left.
Defined.

(** ** The signature *)

Lemma render_line_end (l : str) : exists y, render_line l = y ++ nl.
Proof.
  unfold render_line. case_bool_decide.
  - by exists [].
  - exists (l ++ ustr "  "). by rewrite <- app_assoc.
Qed.

Lemma render_lines_end (ls : list str) (x : str) :
  exists y, x ++ nl ++ concat (List.map render_line ls) = y ++ nl.
Proof.
  destruct ls as [|l ls _] using rev_ind.
  - exists x. simpl. by rewrite ?app_nil_r.
  - destruct (render_line_end l) as [y Hy].
    exists (x ++ nl ++ concat (List.map render_line ls) ++ y).
    rewrite map_app, concat_app. cbn [List.map concat].
    rewrite Hy, app_nil_r. by rewrite <- !app_assoc.
Qed.

Lemma render_poem_signed p :
  has_author_sig p = true ->
  exists before,
    render_poem p = before ++ nl ++ nl ++ nl ++ ustr "*Urangani T.M*".
Proof.
  intros Hs. unfold render_poem, render_signature. rewrite Hs.
  destruct (render_lines_end (lines p)
    (render_header p ++ ustr "# " ++ title_or p (ustr "Poem " ++ number p) ++ nl))
    as [y Hy].
  exists y. rewrite <- !app_assoc in Hy.
  rewrite !app_assoc. rewrite <- !app_assoc.
  rewrite (app_assoc (render_header p)), <- !app_assoc in *.
  apply (f_equal (fun z => z ++ nl ++ nl ++ ustr "*" ++ AUTHOR_NAME ++ ustr "*")) in Hy.
  rewrite <- !app_assoc in Hy. exact Hy.
Qed.

Lemma author_name_not_marker : is_poem_number AUTHOR_NAME = false.
Proof. reflexivity. Qed.

(** C4. Inside a poem a paragraph whose trimmed text is the author name
    sets the signature flag and adds no line; a poem with the flag is
    rendered with, after its last line, two empty lines and the author name
    between asterisks, and nothing after it. *)
Theorem author_signature :
  (forall st p para,
      current_poem st = Some p -> first_poem_found st = true ->
      strip para = AUTHOR_NAME ->
      scan_paragraph st para =
      Ok (mk_scan (poems st) (front_matter st)
            (Some (mk_poem (number p) (title p) (lines p) true)) true)) /\
  (forall p,
      has_author_sig p = true ->
      exists before,
        render_poem p = before ++ nl ++ nl ++ nl ++ ustr "*Urangani T.M*") /\
  (forall p n w,
      has_content p = true -> has_author_sig p = true ->
      exists before,
        files (snd (save_poems [p] n w)) !!
          os_path_join OUTPUT_FOLDER (poem_filename p) =
        Some (before ++ nl ++ nl ++ nl ++ ustr "*Urangani T.M*")).
Proof.
  split; [|split].
  - intros st p para Hc Hf Hs.
    assert (Hm : is_marker para = false)
      by (unfold is_marker; rewrite Hs; apply author_name_not_marker).
    rewrite (scan_content _ _ _ Hm Hc Hf).
    unfold is_signature. by rewrite bool_decide_true.
  - apply render_poem_signed.
  - intros p n w Hc Hs. destruct (render_poem_signed p Hs) as [before E].
    exists before. rewrite (save_poems_write _ _ _ _ Hc). simpl.
    rewrite lookup_insert_eq. by rewrite E.
Qed.

Lemma author_signature_witness :
  scan_paragraph
    (mk_scan [] [] (Some (mk_poem (ustr "1") (Some (ustr "T")) [ustr "T"] false))
       true)
    (ustr "  Urangani T.M ") =
  Ok (mk_scan [] [] (Some (mk_poem (ustr "1") (Some (ustr "T")) [ustr "T"] true))
        true) /\
  exists before,
    render_poem (mk_poem (ustr "1") (Some (ustr "T")) [ustr "T"] true) =
    before ++ nl ++ nl ++ nl ++ ustr "*Urangani T.M*".
Proof.
  split.
  - exact (proj1 author_signature
             (mk_scan [] []
                (Some (mk_poem (ustr "1") (Some (ustr "T")) [ustr "T"] false)) true)
             _ (ustr "  Urangani T.M ") eq_refl eq_refl eq_refl).
  - exact (proj1 (proj2 author_signature)
             (mk_poem (ustr "1") (Some (ustr "T")) [ustr "T"] true) eq_refl).
Defined.

(** ** The emptiness filter *)

Lemma truthy_true (s : str) : truthy s = true <-> s <> [].
Proof. by destruct s. Qed.







(** ** Poems without text *)

Lemma blank_not_marker para : is_blank para = true -> is_marker para = false.
Proof.
  unfold is_blank, is_marker. by destruct (strip para).
Qed.

Lemma signature_not_marker para :
  is_signature para = true -> is_marker para = false.
Proof.
  unfold is_signature, is_marker. intros H%bool_decide_eq_true.
  rewrite H. apply author_name_not_marker.
Qed.

Lemma body_lines_blank content :
  Forall (fun para => is_blank para = true \/ is_signature para = true) content ->
  List.existsb (fun line => truthy (strip line)) (body_lines content) = false.
Proof.
  induction 1 as [|para rest Hp _ IH]; [done |].
  rewrite body_lines_cons. destruct (is_signature para) eqn:Hs; [done |].
  destruct Hp as [Hb | ?]; [|congruence].
  cbn [List.existsb]. rewrite IH. unfold is_blank in Hb.
  by destruct (truthy (strip para)).
Qed.

(** C10. A poem whose paragraphs are all blank or the signature has no
    line with text: it is in the list of poems, with the signature flag
    when a signature was met, yet the writer passes over it, so that the
    files, the messages and the count are those of the document without
    that poem. *)
Theorem signature_only_poem_dropped
    (pre : list str) (m ds : str) (content rest : list str) :
  marker_shape (strip m) ds ->
  Forall (fun para => is_blank para = true \/ is_signature para = true) content ->
  (rest = [] \/ exists m' rest', rest = m' :: rest' /\ is_marker m' = true) ->
  let p := mk_poem ds None (body_lines content)
             (List.existsb is_signature content) in
  exists fm before after,
    segment pre = Ok (fm, before) /\
    segment (pre ++ m :: content ++ rest) = Ok (fm, before ++ p :: after) /\
    has_content p = false /\
    forall n w,
      save_poems (before ++ p :: after) n w = save_poems (before ++ after) n w.
Proof.
  intros Hm Hc Hrest p.
  assert (Hnm : Forall (fun para => is_marker para = false) content).
  { eapply Forall_impl; [exact Hc |]. simpl.
    intros para [H | H]; [by apply blank_not_marker | by apply signature_not_marker]. }
  destruct (segment_poem pre m ds content rest Hm Hnm Hrest)
    as (fm & before & after & H1 & H2).
  assert (Hp : poem_of ds content = p).
  { unfold poem_of, p. by rewrite (proj2 (first_title_none content) Hc). }
  rewrite Hp in H2.
  assert (Hempty : has_content p = false) by apply (body_lines_blank _ Hc).
  exists fm, before, after. repeat split; try done.
  intros n w. rewrite !save_poems_app.
  destruct (save_poems before n w) as [[k | e] w']; [|done].
  by apply save_poems_skip.
Qed.

Lemma signature_only_poem_dropped_witness :
  let p := mk_poem (ustr "1") None [ustr ""] true in
  exists fm before after,
    segment [] = Ok (fm, before) /\
    segment ([] ++ ustr "1" :: [ustr ""; ustr "Urangani T.M"] ++ []) =
      Ok (fm, before ++ p :: after) /\
    has_content p = false /\
    forall n w,
      save_poems (before ++ p :: after) n w = save_poems (before ++ after) n w.
Proof.
  refine (signature_only_poem_dropped [] (ustr "1") (ustr "1")
            [ustr ""; ustr "Urangani T.M"] [] _ _ _).
  - exists [], [], []. repeat split; try done; try (by repeat constructor);
      by left.
  - constructor; [by left |]. constructor; [by right | constructor].
  - by left.
Defined.

(** ** File names *)

Lemma drop_while_incl f (s : str) c : In c (drop_while f s) -> In c s.
Proof.
  induction s as [|d s IH]; simpl; [done |].
  destruct (f d); [right; auto | done].
Qed.

Lemma strip_incl (s : str) c : In c (strip s) -> In c s.
Proof.
  unfold strip, rstrip, lstrip. intros H.
  apply in_rev, drop_while_incl, in_rev in H.
  by apply drop_while_incl in H.
Qed.

Lemma take_incl {A} (n : nat) (l : list A) x : In x (take n l) -> In x l.
Proof.
  rewrite <- !list_elem_of_In. intros H.
  apply list_elem_of_lookup in H as [i H]. apply lookup_take_Some in H as [H _].
  apply list_elem_of_lookup. eauto.
Qed.

Lemma zfill_digits (ds : str) :
  Forall (fun c => is_decimal c = true) ds ->
  zfill 3 ds = repeat ZERO (3 - length ds) ++ ds.
Proof.
  unfold zfill. destruct 1 as [|c ds Hc _]; [by rewrite app_nil_r |].
  destruct (c =? 0x2B) eqn:E1; [apply N.eqb_eq in E1; by subst |].
  destruct (c =? 0x2D) eqn:E2; [apply N.eqb_eq in E2; by subst |].
  done.
Qed.

Lemma sanitize_filename_chars t c :
  In c (sanitize_filename (Some t)) -> is_invalid_char c = false /\ c <> SPACE.
Proof.
  unfold sanitize_filename. destruct (truthy t); simpl negb; cbv iota.
  - intros H%take_incl. unfold replace_spaces in H.
    apply in_map_iff in H as (d & Hd & Hin).
    destruct (d =? SPACE) eqn:E.
    + by subst c.
    + subst d. apply N.eqb_neq in E. split; [|done].
      apply strip_incl in Hin. unfold remove_invalid in Hin.
      apply filter_In in Hin as [_ Hin]. by destruct (is_invalid_char c).
  - intros H. assert (Hall : Forall (fun c => is_invalid_char c = false /\ c <> SPACE)
                              (ustr "Untitled")) by (by repeat constructor).
    rewrite Forall_forall in Hall. apply Hall. by apply list_elem_of_In.
Qed.

Lemma sanitize_filename_length t :
  (length (sanitize_filename (Some t)) <= 50)%nat.
Proof.
  unfold sanitize_filename. destruct (truthy t); simpl negb; cbv iota.
  - rewrite length_take. lia.
  - vm_compute. lia.
Qed.

Lemma os_path_join_relative (f : str) :
  (forall t, f <> SLASH :: t) ->
  os_path_join OUTPUT_FOLDER f = ustr "markdown_poems/" ++ f.
Proof.
  intros H. unfold os_path_join. destruct f as [|c t]; [reflexivity |].
  destruct (c =? SLASH) eqn:E; [|reflexivity].
  apply N.eqb_eq in E. subst c. by destruct (H t).
Qed.

Lemma poem_filename_relative p :
  Forall (fun c => is_decimal c = true) (number p) ->
  forall t, poem_filename p <> SLASH :: t.
Proof.
  intros Hd t. unfold poem_filename. rewrite (zfill_digits _ Hd).
  destruct (number p) as [|c ds] eqn:En; [discriminate |].
  inversion Hd as [|? ? Hc Hds]; subst.
  destruct (3 - length (c :: ds))%nat; simpl; [|discriminate].
  intros [= ->]. discriminate.
Qed.


(** The sanitised title, word for word *)

Lemma is_invalid_char_forbidden c :
  is_invalid_char c = true <-> In c forbidden.
Proof.
  unfold is_invalid_char. rewrite existsb_exists. split.
  - intros (d & Hd & ->%N.eqb_eq). revert Hd. vm_compute. tauto.
  - intros H. exists c. split; [|apply N.eqb_refl]. revert H. vm_compute. tauto.
Qed.

Lemma remove_invalid_without (t : str) : without_forbidden t (remove_invalid t).
Proof.
  induction t as [|c t IH]; [constructor |].
  unfold remove_invalid. cbn [List.filter]. fold (remove_invalid t).
  destruct (is_invalid_char c) eqn:Hc; cbn [negb].
  - apply without_drop; [by apply is_invalid_char_forbidden | done].
  - apply without_keep; [|done]. intros H%is_invalid_char_forbidden. congruence.
Qed.

Lemma without_forbidden_unique (t kept : str) :
  without_forbidden t kept -> kept = remove_invalid t.
Proof.
  induction 1 as [|c t kept Hc _ IH|c t kept Hc _ IH];
    [done | |]; unfold remove_invalid; cbn [List.filter]; fold (remove_invalid t).
  - apply is_invalid_char_forbidden in Hc. by rewrite Hc.
  - destruct (is_invalid_char c) eqn:E.
    + by apply is_invalid_char_forbidden in E.
    + cbn [negb]. by rewrite IH.
Qed.

Lemma drop_while_head f (s : str) c r :
  drop_while f s = c :: r -> f c = false.
Proof.
  induction s as [|d s IH]; simpl; [discriminate |].
  destruct (f d) eqn:Hd; [done |]. by intros [= <- _].
Qed.

Lemma strip_trimmed (s : str) : trimmed s (strip s).
Proof.
  destruct (strip_decompose s) as (a & b & E & Ha & Hb).
  exists a, b. split; [done |]. split; [done |]. split; [done |].
  unfold strip, rstrip, lstrip. split.
  - intros c r Hc.
    destruct (take_drop_while is_space (rev (drop_while is_space s))) as [E2 _].
    apply (f_equal (@rev N)) in E2. rewrite rev_involutive, rev_app_distr in E2.
    rewrite Hc in E2. cbn [app] in E2. by apply drop_while_head in E2.
  - intros c r. rewrite rev_involutive. apply drop_while_head.
Qed.

Lemma trimmed_unique (s core : str) : trimmed s core -> core = strip s.
Proof.
  intros (ws & ws' & -> & Hws & Hws' & Hfirst & Hlast).
  symmetry. by apply strip_core.
Qed.

Lemma replace_spaces_underscored (s : str) : underscored s (replace_spaces s).
Proof. induction s; by constructor. Qed.

Lemma underscored_unique (s u : str) : underscored s u -> u = replace_spaces s.
Proof. induction 1 as [|c d s u -> _ IH]; [done |]. simpl. by rewrite IH. Qed.

Lemma take_first_chars (n : nat) (s : str) : first_chars n s (take n s).
Proof.
  split; [exists (drop n s); by rewrite take_drop | apply length_take].
Qed.

Lemma first_chars_unique (n : nat) (s name : str) :
  first_chars n s name -> name = take n s.
Proof.
  intros [[rest ->] Hlen]. rewrite length_app in Hlen.
  destruct (decide (length name <= n)%nat) as [Hle | Hgt].
  - assert (rest = [] \/ length name = n) as [-> | <-].
    { destruct rest; [by left |]. right. simpl in Hlen. lia. }
    + rewrite app_nil_r. by rewrite take_ge.
    + by rewrite take_app_length.
  - lia.
Qed.

Lemma sanitize_filename_sanitized (t : str) :
  t <> [] -> sanitized t (sanitize_filename (Some t)).
Proof.
  intros Ht. exists (remove_invalid t), (strip (remove_invalid t)),
    (replace_spaces (strip (remove_invalid t))).
  split; [apply remove_invalid_without |]. split; [apply strip_trimmed |].
  split; [apply replace_spaces_underscored |].
  unfold sanitize_filename. destruct t; [done |]. apply take_first_chars.
Qed.

Lemma sanitized_unique (t name : str) :
  t <> [] -> sanitized t name -> name = sanitize_filename (Some t).
Proof.
  intros Ht (kept & core & under & Hk & Hc & Hu & Hn).
  apply without_forbidden_unique in Hk. subst kept.
  apply trimmed_unique in Hc. subst core.
  apply underscored_unique in Hu. subst under.
  apply first_chars_unique in Hn. subst name.
  unfold sanitize_filename. by destruct t.
Qed.

(** C8. The name of a poem file is the number padded with zeros to three
    characters, an underscore, the sanitised title and [.md]; sanitising
    removes the nine forbidden characters, trims, turns spaces into
    underscores and keeps at most fifty characters, and a missing title
    gives Untitled; the file is written under that name in the output
    folder.  My: Poem/Title? with number 7 gives 007_My_PoemTitle.md.
    The sanitised title is also characterised word for word, without the
    functions of the code: it is the one name that [sanitized] allows. *)
Theorem poem_filename_spec :
  (forall p,
      poem_filename p =
      zfill 3 (number p) ++ ustr "_" ++ sanitize_filename (title p) ++ ustr ".md") /\
  (forall ds,
      Forall (fun c => is_decimal c = true) ds ->
      zfill 3 ds = repeat ZERO (3 - length ds) ++ ds) /\
  sanitize_filename None = ustr "Untitled" /\
  (forall t,
      t <> [] ->
      sanitize_filename (Some t) =
      take 50 (replace_spaces (strip (remove_invalid t)))) /\
  (forall t c,
      In c (sanitize_filename (Some t)) ->
      is_invalid_char c = false /\ c <> SPACE) /\
  (forall t, (length (sanitize_filename (Some t)) <= 50)%nat) /\
  (forall p rest n w,
      has_content p = true ->
      Forall (fun c => is_decimal c = true) (number p) ->
      save_poems (p :: rest) n w =
      save_poems rest (S n)
        (mk_world (document w) (dirs w)
           (<[ustr "markdown_poems/" ++ poem_filename p := render_poem p]>
              (files w))
           (stdout w ++ [msg_saved (poem_filename p)]))) /\
  poem_filename (mk_poem (ustr "7") (Some (ustr "My: Poem/Title?")) [] false) =
  ustr "007_My_PoemTitle.md" /\
  (forall t,
      t <> [] ->
      sanitized t (sanitize_filename (Some t)) /\
      forall name, sanitized t name -> name = sanitize_filename (Some t)) /\
  (forall p t name,
      Forall (fun c => is_decimal c = true) (number p) ->
      title p = Some t -> t <> [] -> sanitized t name ->
      poem_filename p =
      repeat ZERO (3 - length (number p)) ++ number p ++ ustr "_" ++ name ++
      ustr ".md") /\
  (forall p,
      Forall (fun c => is_decimal c = true) (number p) ->
      title p = None ->
      poem_filename p =
      repeat ZERO (3 - length (number p)) ++ number p ++ ustr "_Untitled.md") /\
  sanitize_filename (Some ([0x9] ++ ustr " My: Poem/Title? " ++ [0xA0])) =
    ustr "My_PoemTitle" /\
  sanitize_filename (Some (ustr "?  a b  *")) = ustr "a_b" /\
  sanitize_filename (Some (ustr "a" ++ [0x9] ++ ustr "b")) =
    ustr "a" ++ [0x9] ++ ustr "b" /\
  sanitize_filename (Some (repeat 0x61 49 ++ ustr " b")) =
    repeat 0x61 49 ++ ustr "_".
Proof.
  split; [reflexivity |]. split; [apply zfill_digits |].
  split; [reflexivity |].
  split; [intros t Ht; unfold sanitize_filename; by destruct t |].
  split; [apply sanitize_filename_chars |].
  split; [apply sanitize_filename_length |].
  split.
  { intros p rest n w Hc Hd. rewrite (save_poems_write _ _ _ _ Hc).
    by rewrite (os_path_join_relative _ (poem_filename_relative _ Hd)). }
  split; [by vm_compute |].
  split.
  { intros t Ht. split; [by apply sanitize_filename_sanitized |].
    intros name. by apply sanitized_unique. }
  split.
  { intros p t name Hd Et Ht Hn. unfold poem_filename.
    rewrite (zfill_digits _ Hd), Et, <- (sanitized_unique _ _ Ht Hn).
    by rewrite <- !app_assoc. }
  split.
  { intros p Hd Et. unfold poem_filename. rewrite (zfill_digits _ Hd), Et.
    by rewrite <- !app_assoc. }
  repeat split; by vm_compute.
Qed.

Lemma poem_filename_spec_witness :
  zfill 3 (ustr "7") = ustr "007" /\
  sanitize_filename (Some (ustr "My: Poem/Title?")) = ustr "My_PoemTitle" /\
  zfill 3 (ustr "1234") = ustr "1234" /\
  sanitized ([0x9] ++ ustr " My: Poem/Title? ") (ustr "My_PoemTitle") /\
  poem_filename
    (mk_poem (ustr "7") (Some ([0x9] ++ ustr " My: Poem/Title? ")) [] false) =
  ustr "007_My_PoemTitle.md".
Proof.
  destruct poem_filename_spec
    as (_ & Hz & _ & Hs & _ & _ & _ & _ & Hw & Hname & _).
  assert (Hsan : sanitized ([0x9] ++ ustr " My: Poem/Title? ")
                   (ustr "My_PoemTitle"))
    by exact (proj1 (Hw ([0x9] ++ ustr " My: Poem/Title? ")
                       ltac:(discriminate))).
  split; [|split; [|split; [|split]]].
  - refine (eq_trans (Hz (ustr "7") _) eq_refl). by repeat constructor.
  - refine (eq_trans (Hs (ustr "My: Poem/Title?") _) eq_refl). done.
  - refine (eq_trans (Hz (ustr "1234") _) eq_refl). by repeat constructor.
  - exact Hsan.
  - refine (eq_trans (Hname
      (mk_poem (ustr "7") (Some ([0x9] ++ ustr " My: Poem/Title? ")) [] false)
      _ _ _ eq_refl _ Hsan) eq_refl).
    + by repeat constructor.
    + discriminate.
Defined.
(** * Further properties of the scan *)

(** ** The scan never raises *)

Lemma segment_total (paras : list str) :
  exists fm ps, segment paras = Ok (fm, ps).
Proof.
  destruct (scan_paragraphs_total paras init_scan) as [st H].
  rewrite (segment_unfold _ _ H). eauto.
Qed.

(** X1. Segmenting never raises: on every marker the search of line 50
    finds digits, so [.group()] is never applied to [None]. *)
Theorem segment_never_raises (paras : list str) :
  exists fm ps, segment paras = Ok (fm, ps).
Proof.
  destruct (scan_paragraphs_total paras init_scan) as [st H].
  exists (front_matter st), (append_current (current_poem st) (poems st)).
  by apply segment_unfold.
Qed.

(** ** Invariants of the scan *)

(** The four ways a paragraph is handled. *)
Lemma scan_paragraph_cases st para :
  (exists ds,
      is_marker para = true /\ marker_shape (strip para) ds /\
      scan_paragraph st para =
      Ok (mk_scan (append_current (current_poem st) (poems st))
            (front_matter st) (Some (new_poem ds)) true)) \/
  (is_marker para = false /\ first_poem_found st = false /\
   scan_paragraph st para =
   Ok (if is_blank para && bool_decide (front_matter st = []) then st
       else mk_scan (poems st) (front_matter st ++ [para])
              (current_poem st) false)) \/
  (exists p,
      is_marker para = false /\ first_poem_found st = true /\
      current_poem st = Some p /\
      scan_paragraph st para =
      Ok (mk_scan (poems st) (front_matter st)
            (Some (if is_signature para
                   then mk_poem (number p) (title p) (lines p) true
                   else mk_poem (number p)
                          (match title p with
                           | Some t => Some t
                           | None =>
                               if is_blank para then None else Some (strip para)
                           end)
                          (lines p ++ [para]) (has_author_sig p)))
            true)) \/
  (is_marker para = false /\ first_poem_found st = true /\
   current_poem st = None /\ scan_paragraph st para = Ok st).
Proof.
  destruct (is_marker para) eqn:Hm.
  - left. destruct (proj1 (is_marker_shape para) Hm) as [ds Hs].
    exists ds. split; [done |]. split; [done |]. by apply scan_marker.
  - right. destruct (first_poem_found st) eqn:Hf.
    + right. destruct (current_poem st) as [p|] eqn:Hc.
      * left. exists p. repeat split; try done. by apply scan_content.
      * right. repeat split; try done. unfold scan_paragraph.
        unfold is_marker in Hm. by rewrite Hm, Hf, Hc.
    + left. repeat split; try done. by apply scan_front.
Qed.

(** A property kept by every step holds at the end of the loop. *)
Lemma scan_paragraphs_invariant (I : scan_state -> Prop) paras : forall st st',
  (forall st para st', I st -> scan_paragraph st para = Ok st' -> I st') ->
  I st -> scan_paragraphs paras st = Ok st' -> I st'.
Proof.
  induction paras as [|para rest IH]; intros st st' Hstep Hst.
  - by intros [= <-].
  - destruct (scan_paragraph_total st para) as [st1 H1].
    rewrite (scan_paragraphs_cons _ _ _ _ H1). apply IH; eauto.
Qed.

Lemma first_title_app (a b : list str) :
  first_title (a ++ b) =
  match first_title a with
  | Some t => Some t
  | None => first_title b
  end.
Proof.
  induction a as [|para a IH]; [simpl; by destruct (first_title b) |].
  cbn [app first_title]. by destruct (is_signature para || is_blank para).
Qed.

Lemma scan_paragraph_well_formed st para st' :
  scan_well_formed st -> scan_paragraph st para = Ok st' -> scan_well_formed st'.
Proof.
  intros [Hps Hcur] H.
  destruct (scan_paragraph_cases st para)
    as [(ds & _ & Hs & E) | [(_ & _ & E) | [(p & Hm & _ & Hc & E) | (_ & _ & _ & E)]]];
    rewrite E in H; injection H as <-.
  - split; simpl.
    + destruct (current_poem st) as [q|]; simpl; [|done].
      apply Forall_app. split; [done |]. constructor; [by apply Hcur | constructor].
    + intros p [= <-]. destruct Hs as (ws & dot & ws' & _ & _ & Hne & Hds & _).
      by repeat split.
  - by destruct (is_blank para && bool_decide (front_matter st = [])).
  - split; [done |]. simpl. intros q [= <-].
    destruct (Hcur p Hc) as (Hn & Hd & Ht & Hl).
    destruct (is_signature para) eqn:Hsig; [by repeat split |].
    repeat split; simpl; try done.
    + rewrite first_title_app, <- Ht. destruct (title p); [done |].
      cbn [first_title]. rewrite Hsig. by destruct (is_blank para).
    + apply Forall_app. split; [done |]. by repeat constructor.
  - by split.
Qed.

Lemma scan_paragraphs_well_formed (paras : list str) (st : scan_state) :
  scan_paragraphs paras init_scan = Ok st -> scan_well_formed st.
Proof.
  apply (scan_paragraphs_invariant scan_well_formed paras init_scan st).
  - apply scan_paragraph_well_formed.
  - split; [constructor | discriminate].
Qed.

Lemma append_current_well_formed (st : scan_state) :
  scan_well_formed st ->
  Forall well_formed (append_current (current_poem st) (poems st)).
Proof.
  intros [Hps Hcur]. destruct (current_poem st) as [p|]; simpl; [|done].
  apply Forall_app. split; [done |]. constructor; [by apply Hcur | constructor].
Qed.

Lemma segment_well_formed (paras fm : list str) (ps : list poem) :
  segment paras = Ok (fm, ps) -> Forall well_formed ps.
Proof.
  intros H. destruct (scan_paragraphs_total paras init_scan) as [st Hst].
  rewrite (segment_unfold _ _ Hst) in H. injection H as _ <-.
  by apply append_current_well_formed, (scan_paragraphs_well_formed paras).
Qed.

(** X4. Every poem of every document is well formed: its number is a
    non-empty string of digits, none of its lines is a marker or the
    signature, and its title is the trimmed text of its first line that is
    not blank, or is missing when all its lines are blank. *)
Theorem poems_well_formed (paras : list str) (fm : list str) (ps : list poem) :
  segment paras = Ok (fm, ps) ->
  Forall (fun p =>
            number p <> [] /\
            Forall (fun c => is_decimal c = true) (number p) /\
            title p = first_title (lines p) /\
            Forall (fun line => is_marker line = false /\
                                is_signature line = false) (lines p))
    ps.
Proof.
  intros H. destruct (scan_paragraphs_total paras init_scan) as [st Hst].
  pose proof (scan_paragraphs_well_formed _ _ Hst) as Hwf.
  rewrite (segment_unfold _ _ Hst) in H. injection H as _ <-.
  fold well_formed. by apply append_current_well_formed.
Qed.

Lemma poems_well_formed_witness :
  Forall well_formed
    [mk_poem (ustr "1") (Some (ustr "First")) [ustr " "; ustr "First "] true].
Proof.
  exact (poems_well_formed
           [ustr "1"; ustr " "; ustr "Urangani T.M"; ustr "First "] [] _ eq_refl).
Defined.

(** X2. After any number of paragraphs, a poem is open exactly when a
    marker has been read, and [first_poem_found] says so: the test of line
    66 never fails once the first marker is passed. *)
Theorem open_poem_iff_marker_seen (paras : list str) :
  exists st,
    scan_paragraphs paras init_scan = Ok st /\
    first_poem_found st = List.existsb is_marker paras /\
    (is_Some (current_poem st) <-> List.existsb is_marker paras = true).
Proof.
  assert (Hgen : forall st,
    (is_Some (current_poem st) <-> first_poem_found st = true) ->
    exists st',
      scan_paragraphs paras st = Ok st' /\
      first_poem_found st' = first_poem_found st || List.existsb is_marker paras /\
      (is_Some (current_poem st') <-> first_poem_found st' = true)).
  { induction paras as [|para rest IH]; intros st Hst.
    - exists st. by rewrite orb_false_r.
    - destruct (scan_paragraph_total st para) as [st1 H1].
      rewrite (scan_paragraphs_cons _ _ _ _ H1).
      assert (H1' : first_poem_found st1 = first_poem_found st || is_marker para /\
                    (is_Some (current_poem st1) <-> first_poem_found st1 = true)).
      { destruct (scan_paragraph_cases st para)
          as [(ds & Hm & _ & E) | [(Hm & Hf & E) | [(p & Hm & Hf & Hc & E) | (Hm & Hf & Hc & E)]]];
          rewrite E in H1; injection H1 as <-; rewrite Hm.
        - simpl. rewrite orb_true_r. split; [done |]. split; eauto.
        - rewrite orb_false_r.
          destruct (is_blank para && bool_decide (front_matter st = [])); simpl;
            by rewrite <- ?Hf.
        - simpl. rewrite Hf. split; [done |]. split; eauto.
        - by rewrite orb_false_r. }
      destruct H1' as [Hf1 Hc1]. destruct (IH st1 Hc1) as (st' & H' & Hf' & Hc').
      exists st'. split; [done |]. split; [|done].
      rewrite Hf', Hf1. cbn [List.existsb]. by rewrite orb_assoc. }
  destruct (Hgen init_scan) as (st & H & Hf & Hc).
  - simpl. split; [by intros [? ?] | discriminate].
  - exists st. split; [done |]. split; [done |]. by rewrite Hc, Hf.
Qed.

(** X3. A document has exactly as many poems as it has marker
    paragraphs. *)
Theorem poem_count_markers (paras : list str) (fm : list str) (ps : list poem) :
  segment paras = Ok (fm, ps) ->
  length ps = length (List.filter is_marker paras).
Proof.
  assert (Hgen : forall st st',
    scan_paragraphs paras st = Ok st' ->
    length (append_current (current_poem st') (poems st')) =
    (length (append_current (current_poem st) (poems st)) +
     length (List.filter is_marker paras))%nat).
  { induction paras as [|para rest IH]; intros st st'.
    - intros [= <-]. simpl. lia.
    - destruct (scan_paragraph_total st para) as [st1 H1].
      rewrite (scan_paragraphs_cons _ _ _ _ H1). intros H.
      rewrite (IH _ _ H). cbn [List.filter].
      destruct (scan_paragraph_cases st para)
        as [(ds & Hm & _ & E) | [(Hm & Hf & E) | [(p & Hm & Hf & Hc & E) | (Hm & Hf & Hc & E)]]];
        rewrite E in H1; injection H1 as <-; rewrite Hm.
      + simpl. rewrite length_app. simpl. lia.
      + destruct (is_blank para && bool_decide (front_matter st = [])); simpl; lia.
      + simpl. rewrite Hc. simpl. rewrite !length_app. simpl. lia.
      + lia. }
  intros H. destruct (scan_paragraphs_total paras init_scan) as [st Hst].
  rewrite (segment_unfold _ _ Hst) in H. injection H as _ <-.
  by rewrite (Hgen _ _ Hst).
Qed.

Lemma poem_count_markers_witness :
  length [mk_poem (ustr "1") None [] false;
          mk_poem (ustr "2") (Some (ustr "a")) [ustr "a"] false] = 2%nat.
Proof.
  exact (poem_count_markers [ustr "x"; ustr "1"; ustr "2."; ustr "a"]
           [ustr "x"] _ eq_refl).
Defined.

(** ** Nothing is lost, nothing is added *)

Lemma front_poem_parts paras :
  paras = front_part paras ++ poem_part paras /\
  Forall (fun para => is_marker para = false) (front_part paras) /\
  (poem_part paras = [] \/
   exists m rest, poem_part paras = m :: rest /\ is_marker m = true).
Proof.
  induction paras as [|para rest (E & Hf & Hp)]; simpl.
  - repeat split; [constructor | by left].
  - destruct (is_marker para) eqn:Hm; simpl.
    + repeat split; [constructor | right; eauto].
    + repeat split; [congruence | by constructor | done].
Qed.

Lemma lines_append_current cur (ps : list poem) :
  concat (List.map lines (append_current cur ps)) =
  concat (List.map lines ps) ++
  match cur with Some p => lines p | None => [] end.
Proof.
  destruct cur as [p|]; simpl; [|by rewrite app_nil_r].
  rewrite map_app, concat_app. simpl. by rewrite app_nil_r.
Qed.

Lemma scan_poem_part rest : forall st st' p,
  current_poem st = Some p -> first_poem_found st = true ->
  scan_paragraphs rest st = Ok st' ->
  front_matter st' = front_matter st /\
  concat (List.map lines (append_current (current_poem st') (poems st'))) =
  concat (List.map lines (append_current (current_poem st) (poems st))) ++
  List.filter (fun para => negb (is_marker para) && negb (is_signature para)) rest.
Proof.
  induction rest as [|para rest IH]; intros st st' p Hc Hf.
  - intros [= <-]. by rewrite app_nil_r.
  - destruct (scan_paragraph_total st para) as [st1 H1].
    rewrite (scan_paragraphs_cons _ _ _ _ H1). intros H.
    destruct (scan_paragraph_cases st para)
      as [(ds & Hm & _ & E) | [(_ & Hf' & _) | [(q & Hm & _ & Hq & E) | (_ & _ & Hq & _)]]];
      try congruence.
    + rewrite E in H1. injection H1 as <-.
      eapply IH in H; [|reflexivity|reflexivity]. destruct H as [Efm Elines].
      cbn [current_poem poems front_matter] in Efm, Elines.
      split; [done |]. rewrite Elines. cbn [List.filter]. rewrite Hm.
      cbn [negb andb]. rewrite (lines_append_current (Some (new_poem ds))).
      cbn [lines new_poem]. by rewrite app_nil_r.
    + rewrite E in H1. injection H1 as <-. rewrite Hc in Hq. injection Hq as <-.
      eapply IH in H; [|reflexivity|reflexivity]. destruct H as [Efm Elines].
      cbn [current_poem poems front_matter] in Efm, Elines.
      split; [done |]. rewrite Elines. cbn [List.filter]. rewrite Hm.
      rewrite !lines_append_current. rewrite Hc.
      destruct (is_signature para); cbn [lines negb andb]; [done |].
      by rewrite <- !app_assoc.
Qed.

(** X5. The paragraphs are kept in order and none is lost or added: the
    front matter is what precedes the first marker without its leading
    blank paragraphs, and the lines of the poems, one poem after the other,
    are what follows it without the markers and the signatures. *)
Theorem paragraphs_conserved (paras : list str) :
  exists ps,
    segment paras = Ok (skip_blank (front_part paras), ps) /\
    concat (List.map lines ps) =
    List.filter (fun para => negb (is_marker para) && negb (is_signature para))
      (poem_part paras).
Proof.
  destruct (front_poem_parts paras) as (E & Hfront & Hpoem).
  pose proof (scan_front_run _ init_scan Hfront eq_refl) as H1. simpl in H1.
  destruct Hpoem as [Hnil | (m & rest & Hp & Hm)].
  - exists []. rewrite Hnil in *. rewrite app_nil_r in E.
    split; [|done]. rewrite (segment_unfold paras
      (mk_scan [] (skip_blank (front_part paras)) None false)); [done |].
    by rewrite E at 1.
  - apply is_marker_shape in Hm as Hs. destruct Hs as [ds Hs].
    destruct (scan_paragraphs_total rest
      (mk_scan [] (skip_blank (front_part paras)) (Some (new_poem ds)) true))
      as [st' H'].
    assert (Hall : scan_paragraphs paras init_scan = Ok st').
    { rewrite E at 1. rewrite Hp. rewrite (scan_paragraphs_app _ _ _ _ H1).
      by rewrite (scan_paragraphs_cons _ _ _ _ (scan_marker _ _ _ Hs)). }
    eapply scan_poem_part in H'; [|reflexivity|reflexivity].
    destruct H' as [Efm Elines].
    cbn [current_poem poems front_matter append_current] in Efm, Elines.
    exists (append_current (current_poem st') (poems st')).
    rewrite (segment_unfold _ _ Hall), Efm. split; [done |].
    rewrite Elines, Hp. cbn [List.filter]. by rewrite Hm.
Qed.

(** ** Written poems have a title *)

Lemma first_title_lines (ls : list str) :
  Forall (fun line => is_marker line = false /\ is_signature line = false) ls ->
  (first_title ls = None <-> List.existsb (fun l => truthy (strip l)) ls = false) /\
  (forall t, first_title ls = Some t -> t <> []).
Proof.
  induction 1 as [|l ls [_ Hs] _ [IH1 IH2]]; [done |].
  cbn [first_title List.existsb]. rewrite Hs. unfold is_blank.
  destruct (truthy (strip l)) eqn:Ht; simpl.
  - split; [done |]. intros t [= <-]. by apply truthy_true.
  - done.
Qed.

(** X6. A poem of a document is written to a file exactly when it has a
    title.  So in every file written the metadata and the heading carry the
    title of the poem and the file name its sanitised form: the defaults
    Untitled and Poem N of lines 13, 109 and 115 are never used. *)
Theorem written_poems_have_titles
    (paras : list str) (fm : list str) (ps : list poem) (p : poem) :
  segment paras = Ok (fm, ps) -> In p ps ->
  (has_content p = true <-> exists t, title p = Some t) /\
  (has_content p = true ->
   exists t,
     title p = Some t /\ t <> [] /\
     (forall other, title_or p other = t) /\
     sanitize_filename (title p) =
     take 50 (replace_spaces (strip (remove_invalid t)))).
Proof.
  intros H Hin. pose proof (segment_well_formed _ _ _ H) as Hwf.
  rewrite Forall_forall in Hwf.
  destruct (Hwf p (proj2 (list_elem_of_In _ _) Hin)) as (_ & _ & Ht & Hl).
  destruct (first_title_lines _ Hl) as [Hnone Hsome].
  fold (has_content p) in Hnone. rewrite <- Ht in Hnone, Hsome.
  assert (Hiff : has_content p = true <-> exists t, title p = Some t).
  { split.
    - intros Hc. destruct (title p) as [t|]; [eauto |].
      rewrite (proj1 Hnone eq_refl) in Hc. discriminate.
    - intros [t Et]. destruct (has_content p) eqn:Hc; [done |].
      pose proof (proj2 Hnone eq_refl). congruence. }
  split; [done |]. intros Hc. destruct (proj1 Hiff Hc) as [t Et].
  exists t. pose proof (Hsome t Et) as Hne.
  repeat split; try done.
  - intros other. unfold title_or. rewrite Et. by destruct t.
  - rewrite Et. unfold sanitize_filename. by destruct t.
Qed.

Lemma written_poems_have_titles_witness :
  has_content (mk_poem (ustr "2") (Some (ustr "a")) [ustr "a"] false) = true <->
  exists t, title (mk_poem (ustr "2") (Some (ustr "a")) [ustr "a"] false) = Some t.
Proof.
  refine (proj1 (written_poems_have_titles
            [ustr "x"; ustr "1"; ustr "2."; ustr "a"] [ustr "x"] _ _ eq_refl _)).
  right. by left.
Defined.

(** ** Trimming and markers *)

(** X7. Trimming changes nothing for the marker test: a paragraph is a
    marker with or without the white space around it, and the digits found
    are the same. *)
Theorem is_poem_number_strip (s : str) :
  is_poem_number (strip s) = is_poem_number s /\
  (is_poem_number s = true -> re_search_digits (strip s) = re_search_digits s).
Proof.
  assert (Hiff : is_poem_number (strip s) = true <-> is_poem_number s = true).
  { rewrite !is_poem_number_shape. split; intros [ds H]; exists ds.
    - destruct (strip_decompose s) as (a & b & E & Ha & Hb).
      destruct H as (ws & dot & ws' & E' & Hws & Hne & Hds & Hdot & Hws').
      exists (a ++ ws), dot, (ws' ++ b). repeat split; try done.
      + rewrite E at 1. rewrite E'. by rewrite <- !app_assoc.
      + by apply Forall_app.
      + by apply Forall_app.
    - by apply marker_shape_strip. }
  split.
  - destruct (is_poem_number s) eqn:E.
    + by apply Hiff.
    + destruct (is_poem_number (strip s)); [|done]. symmetry. by apply Hiff.
  - intros [ds H]%is_poem_number_shape.
    rewrite (marker_shape_search _ _ H).
    by rewrite (marker_shape_search _ _ (marker_shape_strip _ _ H)).
Qed.

Lemma is_poem_number_strip_witness :
  re_search_digits (strip (ustr "  12. ")) = re_search_digits (ustr "  12. ").
Proof.
  exact (proj2 (is_poem_number_strip (ustr "  12. ")) eq_refl).
Defined.

(** * Further properties of the writer *)

Lemma apply_writes_app (ws1 ws2 : list (list N * list N)) (m : gmap (list N) (list N)) :
  apply_writes (ws1 ++ ws2) m = apply_writes ws2 (apply_writes ws1 m).
Proof. apply fold_left_app. Qed.

Lemma last_write_snoc (k : list N) (ws : list (list N * list N))
    (kv : list N * list N) :
  last_write k (ws ++ [kv]) =
  if bool_decide (fst kv = k) then Some (snd kv) else last_write k ws.
Proof. unfold last_write. by rewrite fold_left_app. Qed.

(** Reading a file after a series of writes. *)
Lemma lookup_apply_writes (ws : list (list N * list N)) (m : gmap (list N) (list N)) (k : list N) :
  apply_writes ws m !! k =
  match last_write k ws with
  | Some v => Some v
  | None => m !! k
  end.
Proof.
  induction ws as [|kv ws IH] using rev_ind; [done |].
  rewrite apply_writes_app, last_write_snoc. cbn [apply_writes fold_left].
  case_bool_decide as Hk.
  - subst k. apply lookup_insert_eq.
  - by rewrite lookup_insert_ne.
Qed.

Lemma last_write_In (k : list N) (ws : list (list N * list N)) (v : list N) :
  last_write k ws = Some v -> In (k, v) ws.
Proof.
  induction ws as [|kv ws IH] using rev_ind; [discriminate |].
  rewrite last_write_snoc, in_app_iff. case_bool_decide as Hk.
  - intros [= <-]. right. left. subst k. by destruct kv.
  - intros H. left. by apply IH.
Qed.

Lemma last_write_None (k : list N) (ws : list (list N * list N)) :
  (forall v, ~ In (k, v) ws) -> last_write k ws = None.
Proof.
  intros H. destruct (last_write k ws) as [v|] eqn:E; [|done].
  by apply last_write_In, H in E.
Qed.

Lemma last_write_app (k : list N) (ws1 ws2 : list (list N * list N)) :
  last_write k (ws1 ++ ws2) =
  match last_write k ws2 with
  | Some v => Some v
  | None => last_write k ws1
  end.
Proof.
  induction ws2 as [|kv ws2 IH] using rev_ind; [by rewrite app_nil_r |].
  rewrite app_assoc, !last_write_snoc, IH. by case_bool_decide.
Qed.

Lemma apply_writes_twice (ws : list (list N * list N)) (m : gmap (list N) (list N)) :
  apply_writes ws (apply_writes ws m) = apply_writes ws m.
Proof.
  apply map_eq. intros k. rewrite !lookup_apply_writes.
  by destruct (last_write k ws).
Qed.

Lemma save_front_matter_spec (fm : list str) (w : world) :
  save_front_matter fm w =
  (Ok tt,
   mk_world (document w) (dirs w)
     (apply_writes (front_matter_writes fm) (files w))
     (stdout w ++ front_matter_msgs fm)).
Proof.
  unfold front_matter_writes, front_matter_msgs. case_bool_decide as Hfm.
  - subst fm. rewrite save_front_matter_empty, app_nil_r. by destruct w.
  - by rewrite save_front_matter_nonempty.
Qed.

Lemma save_poems_spec (ps : list poem) : forall (n : nat) (w : world),
  save_poems ps n w =
  (Ok (n + length (retained ps))%nat,
   mk_world (document w) (dirs w)
     (apply_writes (List.map poem_write (retained ps)) (files w))
     (stdout w ++
        List.map (fun p => msg_saved (poem_filename p)) (retained ps))).
Proof.
  induction ps as [|p ps IH]; intros n w.
  - simpl. rewrite app_nil_r, Nat.add_0_r. by destruct w.
  - unfold retained. cbn [List.filter]. fold (retained ps).
    destruct (has_content p) eqn:Hp.
    + rewrite (save_poems_write _ _ _ _ Hp), IH.
      cbn [document dirs files stdout List.map length apply_writes fold_left].
      rewrite <- app_assoc. do 2 f_equal. lia.
    + by rewrite (save_poems_skip _ _ _ _ Hp), IH.
Qed.

Lemma convert_word_to_md_found_run (w : world) (paras : list str) :
  document w = Some paras ->
  exists fm ps,
    segment paras = Ok (fm, ps) /\
    convert_word_to_md w =
    (Ok tt,
     mk_world (document w) ({[OUTPUT_FOLDER]} ∪ dirs w)
       (apply_writes (run_writes fm ps) (files w))
       (stdout w ++ [msg_reading] ++ front_matter_msgs fm ++
        List.map (fun p => msg_saved (poem_filename p)) (retained ps) ++
        [msg_finished (length (retained ps))])).
Proof.
  intros Hd. destruct (segment_total paras) as (fm & ps & Hs).
  exists fm, ps. split; [done |].
  rewrite (convert_word_to_md_found _ _ _ _ Hd Hs).
  unfold mbind at 1. unfold io_bind at 1. rewrite save_front_matter_spec.
  unfold mbind at 1. unfold io_bind at 1. rewrite save_poems_spec.
  unfold print. cbn [document dirs files stdout].
  unfold run_writes. rewrite apply_writes_app. by rewrite <- !app_assoc.
Qed.

(** ** Where files are written *)

Lemma os_path_join_cases (b : str) :
  os_path_join OUTPUT_FOLDER b =
  match b with
  | c :: _ => if c =? SLASH then b else ustr "markdown_poems/" ++ b
  | [] => ustr "markdown_poems/"
  end.
Proof.
  unfold os_path_join. destruct b as [|c t]; [reflexivity |].
  by destruct (c =? SLASH).
Qed.

Lemma os_path_join_inj (b1 b2 : str) :
  os_path_join OUTPUT_FOLDER b1 = os_path_join OUTPUT_FOLDER b2 -> b1 = b2.
Proof.
  rewrite !os_path_join_cases.
  destruct b1 as [|c1 t1], b2 as [|c2 t2]; try done.
  - destruct (c2 =? SLASH) eqn:E2; [|discriminate].
    apply N.eqb_eq in E2. subst. discriminate.
  - destruct (c1 =? SLASH) eqn:E1; [|discriminate].
    apply N.eqb_eq in E1. subst. discriminate.
  - destruct (c1 =? SLASH) eqn:E1, (c2 =? SLASH) eqn:E2; try done.
    + apply N.eqb_eq in E1. subst. discriminate.
    + apply N.eqb_eq in E2. subst. discriminate.
    + by intros ?%app_inv_head.
Qed.

Lemma retained_app (a b : list poem) : retained (a ++ b) = retained a ++ retained b.
Proof. unfold retained. apply List.filter_app. Qed.

Lemma retained_In (p : poem) (ps : list poem) :
  In p (retained ps) <-> In p ps /\ has_content p = true.
Proof. unfold retained. apply List.filter_In. Qed.

(** X10. Poems are written in order over whatever is there: when several
    poems with text get the same file name, the file holds the last of
    them, and every one of them is still counted as saved. *)
Theorem poem_file_last_wins
    (a : list poem) (q : poem) (b : list poem) (n : nat) (w : world) :
  has_content q = true ->
  (forall p, In p b -> has_content p = true ->
             poem_filename p <> poem_filename q) ->
  files (snd (save_poems (a ++ q :: b) n w)) !!
    os_path_join OUTPUT_FOLDER (poem_filename q) = Some (render_poem q) /\
  fst (save_poems (a ++ q :: b) n w) =
    Ok (n + (length (retained a) + 1 + length (retained b)))%nat.
Proof.
  intros Hq Hb. rewrite save_poems_spec. cbn [fst snd files].
  assert (Hr : retained (a ++ q :: b) = retained a ++ [q] ++ retained b).
  { rewrite retained_app. f_equal. unfold retained. cbn [List.filter].
    by rewrite Hq. }
  rewrite Hr. split.
  - rewrite lookup_apply_writes, !map_app, !last_write_app.
    rewrite last_write_None.
    + cbn [List.map last_write fold_left fst snd poem_write].
      by rewrite bool_decide_true.
    + intros v (p & E & Hin)%in_map_iff. apply retained_In in Hin as [Hin Hp].
      injection E as E _. apply os_path_join_inj in E. by apply (Hb p).
  - rewrite !length_app. simpl. f_equal. lia.
Qed.

Lemma poem_file_last_wins_witness :
  let p1 := mk_poem (ustr "1") (Some (ustr "A")) [ustr "A"; ustr "x"] false in
  let p2 := mk_poem (ustr "1") (Some (ustr "A")) [ustr "A"; ustr "y"] false in
  files (snd (save_poems ([p1] ++ p2 :: []) 0 (mk_world None ∅ ∅ []))) !!
    os_path_join OUTPUT_FOLDER (poem_filename p2) = Some (render_poem p2) /\
  fst (save_poems ([p1] ++ p2 :: []) 0 (mk_world None ∅ ∅ [])) = Ok 2%nat.
Proof.
  intros p1 p2.
  refine (poem_file_last_wins [p1] p2 [] 0 (mk_world None ∅ ∅ []) eq_refl _).
  intros p [].
Defined.

Lemma poem_filename_no_slash (p : poem) :
  Forall (fun c => is_decimal c = true) (number p) ->
  ~ In SLASH (poem_filename p).
Proof.
  intros Hd. unfold poem_filename. rewrite (zfill_digits _ Hd).
  rewrite !in_app_iff. intros [[H | H] | [H | [H | H]]].
  - apply repeat_spec in H. discriminate.
  - rewrite Forall_forall in Hd. apply list_elem_of_In, Hd in H. discriminate.
  - simpl in H. destruct H as [H | []]. discriminate.
  - destruct (title p) as [t|].
    + apply sanitize_filename_chars in H as [H _]. discriminate.
    + simpl in H. repeat (destruct H as [H | H]; [discriminate |]). done.
  - simpl in H. repeat (destruct H as [H | H]; [discriminate |]). done.
Qed.

Lemma poem_filename_not_front_matter (p : poem) :
  Forall (fun c => is_decimal c = true) (number p) ->
  poem_filename p <> ustr "00_Front_Matter.md".
Proof.
  intros Hd. unfold poem_filename. rewrite (zfill_digits _ Hd).
  assert (Hthird : forall z rest,
            (3 <= length z)%nat -> Forall (fun c => is_decimal c = true) z ->
            nth 2 (z ++ rest) 0 <> UNDERSCORE).
  { intros z rest Hlen Hz. destruct z as [|a [|b [|c z]]]; simpl in Hlen; try lia.
    simpl. inversion Hz as [|? ? _ Hz1]; subst.
    inversion Hz1 as [|? ? _ Hz2]; subst. inversion Hz2 as [|? ? Hc _]; subst.
    intros ->. discriminate. }
  intros E. apply (f_equal (fun l => nth 2 l 0)) in E.
  apply (Hthird _ _) in E; [done | |].
  - rewrite length_app, repeat_length. lia.
  - apply Forall_app. split; [|done]. apply Forall_forall.
    intros c Hc%list_elem_of_In%repeat_spec. by subst.
Qed.

Lemma poem_write_path (p : poem) :
  Forall (fun c => is_decimal c = true) (number p) ->
  fst (poem_write p) = ustr "markdown_poems/" ++ poem_filename p.
Proof.
  intros Hd. unfold poem_write. cbn [fst].
  apply os_path_join_relative. by apply poem_filename_relative.
Qed.

Lemma run_writes_keys (paras fm : list str) (ps : list poem) (k v : list N) :
  segment paras = Ok (fm, ps) -> In (k, v) (run_writes fm ps) ->
  exists name, k = ustr "markdown_poems/" ++ name /\ ~ In SLASH name.
Proof.
  intros Hs. unfold run_writes. rewrite in_app_iff. intros [H | H].
  - unfold front_matter_writes in H. case_bool_decide; [done |].
    destruct H as [[= <- _] | []]. exists (ustr "00_Front_Matter.md").
    split; [reflexivity |]. simpl.
    intros H. repeat (destruct H as [H | H]; [discriminate |]). done.
  - apply in_map_iff in H as (p & E & Hin). apply retained_In in Hin as [Hin _].
    pose proof (segment_well_formed _ _ _ Hs) as Hwf. rewrite Forall_forall in Hwf.
    destruct (Hwf p (proj2 (list_elem_of_In _ _) Hin)) as (_ & Hd & _).
    exists (poem_filename p). split; [|by apply poem_filename_no_slash].
    rewrite <- (poem_write_path _ Hd). by rewrite E.
Qed.

(** X11. A run writes only files that are directly in the output folder:
    every other path keeps the content it had, or stays absent. *)
Theorem writes_confined_to_output_folder (w : world) (k : list N) :
  (forall name, ~ In SLASH name -> k <> ustr "markdown_poems/" ++ name) ->
  files (snd (convert_word_to_md w)) !! k = files w !! k.
Proof.
  intros Hk. destruct (document w) as [paras|] eqn:Hd.
  - destruct (convert_word_to_md_found_run w paras Hd) as (fm & ps & Hs & H).
    rewrite H. cbn [snd files]. rewrite lookup_apply_writes.
    rewrite last_write_None; [done |].
    intros v (name & -> & Hn)%(run_writes_keys _ _ _ _ _ Hs). by apply (Hk name).
  - by rewrite (convert_word_to_md_missing _ Hd).
Qed.

Lemma writes_confined_to_output_folder_witness :
  files (snd (convert_word_to_md
                (mk_world (Some [ustr "1"; ustr "a"]) ∅
                   {[ustr "notes.txt" := ustr "keep"]} []))) !!
    ustr "notes.txt" = Some (ustr "keep").
Proof.
  refine (eq_trans (writes_confined_to_output_folder _ (ustr "notes.txt") _) _).
  - intros name _ H. vm_compute in H. discriminate.
  - apply lookup_singleton_eq.
Defined.

(** X12. No poem file can take the place of the front matter file: after
    a run [00_Front_Matter.md] holds the front matter of the document, or,
    when the document has none, is as it was. *)
Theorem front_matter_file_kept
    (w : world) (paras fm : list str) (ps : list poem) :
  document w = Some paras -> segment paras = Ok (fm, ps) ->
  files (snd (convert_word_to_md w)) !! ustr "markdown_poems/00_Front_Matter.md" =
  if bool_decide (fm = []) then
    files w !! ustr "markdown_poems/00_Front_Matter.md"
  else Some (render_front_matter fm).
Proof.
  intros Hd Hs. destruct (convert_word_to_md_found_run w paras Hd) as (fm' & ps' & Hs' & H).
  rewrite Hs in Hs'. injection Hs' as <- <-.
  rewrite H. cbn [snd files]. rewrite lookup_apply_writes.
  unfold run_writes. rewrite last_write_app, last_write_None.
  - unfold front_matter_writes. case_bool_decide; [done |].
    cbn [last_write fold_left fst snd]. by rewrite bool_decide_true.
  - intros v (p & E & Hin)%in_map_iff. apply retained_In in Hin as [Hin _].
    pose proof (segment_well_formed _ _ _ Hs) as Hwf. rewrite Forall_forall in Hwf.
    destruct (Hwf p (proj2 (list_elem_of_In _ _) Hin)) as (_ & Hdig & _).
    apply (f_equal fst) in E. rewrite (poem_write_path _ Hdig) in E.
    cbn [fst] in E.
    change (ustr "markdown_poems/00_Front_Matter.md")
      with (ustr "markdown_poems/" ++ ustr "00_Front_Matter.md") in E.
    apply app_inv_head in E. by apply (poem_filename_not_front_matter p).
Qed.

Lemma front_matter_file_kept_witness :
  files (snd (convert_word_to_md
                (mk_world (Some [ustr "Intro"; ustr "00"; ustr "Front"]) ∅ ∅ []))) !!
    ustr "markdown_poems/00_Front_Matter.md" =
  Some (render_front_matter [ustr "Intro"]).
Proof.
  exact (front_matter_file_kept
           (mk_world (Some [ustr "Intro"; ustr "00"; ustr "Front"]) ∅ ∅ [])
           _ [ustr "Intro"] _ eq_refl eq_refl).
Defined.

(** X13. Running twice gives the files and directories of running once. *)
Theorem convert_word_to_md_idempotent (w : world) :
  let w1 := snd (convert_word_to_md w) in
  files (snd (convert_word_to_md w1)) = files w1 /\
  dirs (snd (convert_word_to_md w1)) = dirs w1.
Proof.
  intros w1. subst w1. destruct (document w) as [paras|] eqn:Hd.
  - destruct (convert_word_to_md_found_run w paras Hd) as (fm & ps & Hs & H).
    rewrite H. cbn [snd].
    match goal with |- context [convert_word_to_md ?x] => set (w1 := x) end.
    assert (Hd1 : document w1 = Some paras) by exact Hd.
    destruct (convert_word_to_md_found_run w1 paras Hd1) as (fm' & ps' & Hs' & H1).
    rewrite Hs in Hs'. injection Hs' as <- <-.
    rewrite H1. subst w1. cbn [snd files dirs]. split.
    + apply apply_writes_twice.
    + by rewrite (assoc_L (∪)), union_idemp_L.
  - rewrite (convert_word_to_md_missing _ Hd). cbn [snd].
    rewrite convert_word_to_md_missing by exact Hd. by split.
Qed.

(** * The run when the environment fails *)

Lemma faulty_save_front_matter (f : Faulty.faults) (fm : list str) (w : world) :
  Faulty.save_front_matter f fm w =
  (if all_open (Faulty.open_fails f) (front_matter_steps fm)
   then Faulty.Done tt else Faulty.Raised Faulty.OSError,
   mk_world (document w) (dirs w)
     (apply_writes
        (List.map fst (steps_done (Faulty.open_fails f) (front_matter_steps fm)))
        (files w))
     (stdout w ++
      List.map snd (steps_done (Faulty.open_fails f) (front_matter_steps fm)))).
Proof.
  unfold Faulty.save_front_matter, front_matter_steps.
  case_bool_decide as Hfm.
  - simpl. rewrite app_nil_r. by destruct w.
  - unfold mbind, Faulty.fio_bind, Faulty.write_file, front_matter_path.
    cbn [all_open List.forallb steps_done fst snd].
    destruct (Faulty.open_fails f _); cbn [negb andb List.map apply_writes fold_left].
    + rewrite app_nil_r. by destruct w.
    + reflexivity.
Qed.

Lemma faulty_save_poems (f : Faulty.faults) (ps : list poem) :
  forall (n : nat) (w : world),
  Faulty.save_poems f ps n w =
  (if all_open (Faulty.open_fails f) (List.map poem_step (retained ps))
   then Faulty.Done (n + length (retained ps))%nat
   else Faulty.Raised Faulty.OSError,
   mk_world (document w) (dirs w)
     (apply_writes
        (List.map fst
           (steps_done (Faulty.open_fails f) (List.map poem_step (retained ps))))
        (files w))
     (stdout w ++
      List.map snd
        (steps_done (Faulty.open_fails f) (List.map poem_step (retained ps))))).
Proof.
  induction ps as [|p ps IH]; intros n w.
  - simpl. rewrite app_nil_r, Nat.add_0_r. by destruct w.
  - unfold retained. cbn [List.filter Faulty.save_poems]. fold (retained ps).
    destruct (has_content p) eqn:Hp; cbn [negb]; [|apply IH].
    unfold mbind at 1. unfold Faulty.fio_bind at 1. unfold Faulty.write_file.
    cbn [List.map all_open List.forallb steps_done poem_step fst snd].
    destruct (Faulty.open_fails f _);
      cbn [negb andb List.map apply_writes fold_left].
    + rewrite app_nil_r. by destruct w.
    + unfold mbind at 1. unfold Faulty.fio_bind at 1. unfold Faulty.print.
      rewrite IH. cbn [document dirs files stdout length fst snd].
      rewrite <- app_assoc. unfold all_open.
      destruct (List.forallb _ _); [|done]. do 2 f_equal. lia.
Qed.

Lemma steps_done_app fails (a b : list (list N * list N * list N)) :
  steps_done fails (a ++ b) =
  if all_open fails a then a ++ steps_done fails b else steps_done fails a.
Proof.
  induction a as [|s a IH]; [done |].
  cbn [app steps_done all_open List.forallb]. destruct (fails s.1.1); [done |].
  cbn [negb andb]. rewrite IH. unfold all_open. by destruct (List.forallb _ a).
Qed.

Lemma steps_done_all_open fails (a : list (list N * list N * list N)) :
  all_open fails a = true -> steps_done fails a = a.
Proof.
  induction a as [|s a IH]; [done |]. cbn [all_open List.forallb steps_done].
  destruct (fails s.1.1); [done |]. cbn [negb andb]. intros H. by rewrite IH.
Qed.

Lemma all_open_app fails (a b : list (list N * list N * list N)) :
  all_open fails (a ++ b) = all_open fails a && all_open fails b.
Proof. apply forallb_app. Qed.

Lemma faulty_convert_word_to_md_found
    (f : Faulty.faults) (w : world) (paras fm : list str) (ps : list poem) :
  document w = Some paras ->
  Faulty.unreadable f = false -> Faulty.makedirs_fails f = false ->
  segment paras = Ok (fm, ps) ->
  Faulty.convert_word_to_md f w =
  (if all_open (Faulty.open_fails f) (run_steps fm ps)
   then Faulty.Done tt else Faulty.Raised Faulty.OSError,
   mk_world (document w) ({[OUTPUT_FOLDER]} ∪ dirs w)
     (apply_writes
        (List.map fst (steps_done (Faulty.open_fails f) (run_steps fm ps)))
        (files w))
     (stdout w ++ [msg_reading] ++
      List.map snd (steps_done (Faulty.open_fails f) (run_steps fm ps)) ++
      (if all_open (Faulty.open_fails f) (run_steps fm ps)
       then [msg_finished (length (retained ps))] else []))).
Proof.
  intros Hd Hu Hm Hs. unfold Faulty.convert_word_to_md.
  unfold mbind at 1. unfold Faulty.fio_bind at 1. unfold Faulty.input_exists.
  rewrite Hu. rewrite bool_decide_true by (rewrite Hd; eauto). cbn [orb negb].
  unfold mbind at 1. unfold Faulty.fio_bind at 1. unfold Faulty.os_makedirs.
  rewrite Hm.
  unfold mbind at 1. unfold Faulty.fio_bind at 1. unfold Faulty.read_document.
  rewrite Hu. cbn [document]. rewrite Hd.
  unfold mbind at 1. unfold Faulty.fio_bind at 1. unfold Faulty.print at 1.
  unfold mbind at 1. unfold Faulty.fio_bind at 1. unfold Faulty.lift.
  rewrite Hs. cbn [fst snd].
  unfold mbind at 1. unfold Faulty.fio_bind at 1.
  rewrite faulty_save_front_matter. cbn [document dirs files stdout].
  unfold run_steps. rewrite steps_done_app, all_open_app.
  destruct (all_open (Faulty.open_fails f) (front_matter_steps fm)) eqn:Ha;
    cbn [andb].
  - rewrite (steps_done_all_open _ _ Ha).
    unfold mbind at 1. unfold Faulty.fio_bind at 1. rewrite faulty_save_poems.
    cbn [document dirs files stdout].
    destruct (all_open (Faulty.open_fails f) (List.map poem_step (retained ps))).
    + unfold Faulty.print. cbn [document dirs files stdout].
      rewrite !map_app, apply_writes_app. by rewrite <- !app_assoc.
    + rewrite !map_app, apply_writes_app, app_nil_r. by rewrite <- !app_assoc.
  - by rewrite app_nil_r, <- !app_assoc.
Qed.

(** X8. A run on a readable document whose folder can be created writes
    its files in order until one cannot be opened: the files opened before
    it are written and reported, the failing one and those after it are
    not, the exception is raised and the closing message is not printed;
    when every file can be opened the run returns normally and the closing
    message counts the poems with text. *)
Theorem run_stops_at_first_failing_open
    (f : Faulty.faults) (w : world) (paras : list str) :
  document w = Some paras ->
  Faulty.unreadable f = false -> Faulty.makedirs_fails f = false ->
  exists fm ps,
    segment paras = Ok (fm, ps) /\
    let steps := run_steps fm ps in
    let done := steps_done (Faulty.open_fails f) steps in
    let complete := all_open (Faulty.open_fails f) steps in
    Faulty.convert_word_to_md f w =
    (if complete then Faulty.Done tt else Faulty.Raised Faulty.OSError,
     mk_world (document w) ({[OUTPUT_FOLDER]} ∪ dirs w)
       (apply_writes (List.map fst done) (files w))
       (stdout w ++ [msg_reading] ++ List.map snd done ++
        (if complete then [msg_finished (length (retained ps))] else []))).
Proof.
  intros Hd Hu Hm.
  destruct (scan_paragraphs_total paras init_scan) as [st Hst].
  pose proof (segment_unfold _ _ Hst) as Hs.
  eexists _, _. split; [exact Hs |]. cbv zeta.
  by apply (faulty_convert_word_to_md_found f w paras).
Qed.

Lemma run_stops_at_first_failing_open_witness :
  let f := Faulty.mk_faults false false
             (fun path => bool_decide (path = ustr "markdown_poems/002_B.md")) in
  let paras := [ustr "1"; ustr "A"; ustr "2"; ustr "B"; ustr "3"; ustr "C"] in
  exists fm ps,
    segment paras = Ok (fm, ps) /\
    let steps := run_steps fm ps in
    let done := steps_done (Faulty.open_fails f) steps in
    let complete := all_open (Faulty.open_fails f) steps in
    Faulty.convert_word_to_md f (mk_world (Some paras) ∅ ∅ []) =
    (if complete then Faulty.Done tt else Faulty.Raised Faulty.OSError,
     mk_world (Some paras) ({[OUTPUT_FOLDER]} ∪ ∅)
       (apply_writes (List.map fst done) ∅)
       ([] ++ [msg_reading] ++ List.map snd done ++
        (if complete then [msg_finished (length (retained ps))] else []))).
Proof.
  intros f paras.
  exact (run_stops_at_first_failing_open f (mk_world (Some paras) ∅ ∅ []) paras
           eq_refl eq_refl eq_refl).
Defined.

Example failing_open_partial_output :
  let f := Faulty.mk_faults false false
             (fun path => bool_decide (path = ustr "markdown_poems/002_B.md")) in
  let paras := [ustr "1"; ustr "A"; ustr "2"; ustr "B"; ustr "3"; ustr "C"] in
  let steps := run_steps [] [mk_poem (ustr "1") (Some (ustr "A")) [ustr "A"] false;
                             mk_poem (ustr "2") (Some (ustr "B")) [ustr "B"] false;
                             mk_poem (ustr "3") (Some (ustr "C")) [ustr "C"] false] in
  List.map (fun s => fst (fst s)) (steps_done (Faulty.open_fails f) steps) =
    [ustr "markdown_poems/001_A.md"] /\
  all_open (Faulty.open_fails f) steps = false.
Proof. by vm_compute. Qed.





